(** * pepnet: losses, output descriptor and sequence-input descriptor

    A shallow embedding of [pepnet/losses.py], [pepnet/output.py] and
    [pepnet/sequence_input.py], with the properties of the specification
    stated and proved (or refuted) over it.

    Numbers.  The losses work on [float32] tensors: [positive_only_mse]
    multiplies by a mask cast to "float32", and the masked losses divide by
    a count cast to "float32".  A tensor entry is a rational, an infinity or
    NaN, and arithmetic is IEEE arithmetic without its rounding: a result is
    exact unless its magnitude reaches the overflow threshold of [float32],
    where it is the infinity of its sign; infinities and NaN propagate the
    way IEEE arithmetic has them ([inf * 0 = NaN], [inf - inf = NaN],
    [0 / 0 = NaN], [x / 0 = inf]).  Rounding to 24 bits, underflow and the
    sign of zero are outside the model.

    Tensors.  The losses reduce over the last axis, so a tensor is a list of
    samples, each sample a list of features. *)

From Stdlib Require Import ZArith QArith Qcanon Qround List String Ascii.
From Stdlib Require Import Decimal DecimalString DecimalZ DecimalPos.
From stdpp Require Import base numbers list strings.

Set Warnings "-register-all".
Local Open Scope Z_scope.

(** ** Numbers: rationals, infinities and NaN *)

Module Num.

Inductive num := Fin (q : Qc) | Inf (negative : bool) | NaN.

(** The magnitude from which a result rounds to an infinity in [float32]:
    [2^128 - 2^103], half a unit in the last place above the largest finite
    value. *)
Definition overflow_threshold : Qc := Qc_of_Z (2 ^ 128 - 2 ^ 103).

Definition negative (q : Qc) : bool := bool_decide (q < 0)%Qc.

(** The value of an operation whose exact result is [q]. *)
Definition round (q : Qc) : num :=
  if bool_decide (- overflow_threshold < q ∧ q < overflow_threshold)%Qc
  then Fin q
  else Inf (negative q).

Definition zero : num := Fin 0%Qc.
Definition one : num := Fin 1%Qc.

(** A count as a number. *)
Definition of_nat (n : nat) : num := round (Qc_of_Z (Z.of_nat n)).

Definition add (a b : num) : num :=
  match a, b with
  | Fin x, Fin y => round (x + y)
  | Inf s, Fin _ | Fin _, Inf s => Inf s
  | Inf s, Inf s' => if Bool.eqb s s' then Inf s else NaN
  | _, _ => NaN
  end.

Definition sub (a b : num) : num :=
  match a, b with
  | Fin x, Fin y => round (x - y)
  | Inf s, Fin _ => Inf s
  | Fin _, Inf s => Inf (negb s)
  | Inf s, Inf s' => if Bool.eqb s s' then NaN else Inf s
  | _, _ => NaN
  end.

(** An infinity times zero is NaN. *)
Definition mul (a b : num) : num :=
  match a, b with
  | Fin x, Fin y => round (x * y)
  | Inf s, Fin y | Fin y, Inf s =>
      if bool_decide (y = 0%Qc) then NaN else Inf (xorb s (negative y))
  | Inf s, Inf s' => Inf (xorb s s')
  | _, _ => NaN
  end.

(** [0 / 0] is NaN and [x / 0] an infinity for [x] non-zero.  Zero is the
    positive zero: the losses divide by counts only. *)
Definition div (a b : num) : num :=
  match a, b with
  | Fin x, Fin y =>
      if bool_decide (y = 0%Qc) then
        if bool_decide (x = 0%Qc) then NaN else Inf (negative x)
      else round (x / y)
  | Fin _, Inf _ => zero
  | Inf s, Fin y => Inf (xorb s (negative y))
  | _, _ => NaN
  end.

Definition square (a : num) : num := mul a a.

(** Comparisons with a NaN operand are false. *)
Definition geb (a b : num) : bool :=
  match a, b with
  | Fin x, Fin y => bool_decide (y ≤ x)%Qc
  | Inf s, Fin _ => negb s
  | Fin _, Inf s => s
  | Inf s, Inf s' => negb s || s'
  | _, _ => false
  end.

Definition ltb (a b : num) : bool :=
  match a, b with
  | Fin x, Fin y => bool_decide (x < y)%Qc
  | Inf s, Fin _ => s
  | Fin _, Inf s => negb s
  | Inf s, Inf s' => s && negb s'
  | _, _ => false
  end.

Definition is_nan (a : num) : bool :=
  match a with NaN => true | _ => false end.

Definition sum (xs : list num) : num := foldr add zero xs.

(** A value that an operation can have returned: not a rational at or
    beyond the overflow threshold. *)
Definition rounded (a : num) : Prop :=
  match a with
  | Fin q => round q = Fin q
  | _ => True
  end.

End Num.

Abbreviation num := Num.num.
Abbreviation Fin := Num.Fin.
Abbreviation Inf := Num.Inf.
Abbreviation NaN := Num.NaN.

(** ** losses.py *)

Module losses.

Abbreviation tensor := (list (list num)).
Abbreviation mask_tensor := (list (list bool)).

(** *** The backend operations the losses call *)

(** An operation entry by entry, for operands of one shape.  For operands
    of different shapes the backend raises or broadcasts; that is outside the
    model, where the shorter operand decides, and the properties below are
    stated for operands of one shape. *)
Definition elementwise {A B C} (f : A → B → C) (x : list (list A))
    (y : list (list B)) : list (list C) :=
  zip_with (zip_with f) x y.

Definition K_square (x : tensor) : tensor := map (map Num.square) x.

Definition cast (b : bool) : num := if b then Num.one else Num.zero.

Definition K_cast (m : mask_tensor) : tensor := map (map cast) m.

Definition K_sum (x : tensor) : list num := map Num.sum x.

Definition K_mean (x : tensor) : list num :=
  map (λ row, Num.div (Num.sum row) (Num.of_nat (length row))) x.

Definition K_shape (x : tensor) : list nat := map length x.

Definition K_zeros (shape : list nat) : tensor :=
  map (λ d, replicate d Num.zero) shape.

Definition zip_with3 {A B C D} (f : A → B → C → D) (xs : list A)
    (ys : list B) (zs : list C) : list D :=
  zip_with (λ x (yz : B * C), f x yz.1 yz.2) xs (zip ys zs).

Definition switch (c : bool) (x y : num) : num := if c then x else y.

Definition K_switch (m : mask_tensor) (a b : tensor) : tensor :=
  zip_with3 (zip_with3 switch) m a b.

Definition is_nan (x : tensor) : mask_tensor := map (map Num.is_nan) x.

Definition invert (m : mask_tensor) : mask_tensor := map (map negb) m.

(** *** The losses *)

Definition positive_only_mse (y_true y_pred : tensor) : list num :=
  let diff := elementwise Num.sub y_pred y_true in
  let squared := K_square diff in
  let mask : mask_tensor := map (map (λ p, Num.geb p Num.zero)) y_pred in
  let squared := elementwise Num.mul squared (K_cast mask) in
  K_mean squared.

Definition sum_squared_error (y_true y_pred : tensor) : list num :=
  let mask := is_nan y_true in
  let diff := elementwise Num.sub y_pred y_true in
  let squared := K_square diff in
  K_sum (K_switch mask (K_zeros (K_shape squared)) squared).

Definition n_valid_per_sample (y_true : tensor) : list num :=
  let mask := is_nan y_true in
  K_sum (K_cast (invert mask)).

Definition masked_mse (y_true y_pred : tensor) : list num :=
  zip_with Num.div (sum_squared_error y_true y_pred)
           (n_valid_per_sample y_true).

(** *** The same computations on one sample *)

Definition positive_only_mse_sample (t p : list num) : num :=
  let squared := map Num.square (zip_with Num.sub p t) in
  let mask := map (λ p, Num.geb p Num.zero) p in
  let squared := zip_with Num.mul squared (map cast mask) in
  Num.div (Num.sum squared) (Num.of_nat (length squared)).

Definition sum_squared_error_sample (t p : list num) : num :=
  let mask := map Num.is_nan t in
  let squared := map Num.square (zip_with Num.sub p t) in
  Num.sum (zip_with3 switch mask (replicate (length squared) Num.zero) squared).

Definition n_valid_sample (t : list num) : num :=
  Num.sum (map cast (map negb (map Num.is_nan t))).

Definition masked_mse_sample (t p : list num) : num :=
  Num.div (sum_squared_error_sample t p) (n_valid_sample t).

(** *** What the specification says the losses compute, one sample at a time *)

Definition squared_error (t p : num) : num := Num.square (Num.sub p t).

(** Plain mean squared error over a sample of [d] features. *)
Definition plain_mse (d : nat) (t p : list num) : num :=
  Num.div (Num.sum (zip_with squared_error t p)) (Num.of_nat d).

(** Squared errors with the entries at negative predictions replaced by
    zero, averaged over all [d] features. *)
Definition spec_positive_only_mse (d : nat) (t p : list num) : num :=
  Num.div
    (Num.sum (zip_with (λ t p, if Num.ltb p Num.zero then Num.zero
                               else squared_error t p) t p))
    (Num.of_nat d).

(** The observed positions of a sample: the pairs whose ground truth is not
    the sentinel. *)
Definition observed (t p : list num) : list (num * num) :=
  filter (λ tp : num * num, Num.is_nan tp.1 = false) (zip t p).

(** Sum of the squared errors at the observed positions over their count. *)
Definition spec_masked_mse (t p : list num) : num :=
  Num.div (Num.sum (map (λ tp, squared_error tp.1 tp.2) (observed t p)))
          (Num.of_nat (length (observed t p))).

(** Sum of [f] over the observed positions of a sample, over their
    count. *)
Definition masked_mean (f : num → num → num) (t p : list num) : num :=
  Num.div (Num.sum (map (λ tp, f tp.1 tp.2) (observed t p)))
          (Num.of_nat (length (observed t p))).

(** *** Masked binary cross-entropy *)

Section binary_crossentropy.

(** [K.binary_crossentropy] is the backend's; it combines a target and an
    output entry by entry. *)
Variable binary_crossentropy : num → num → num.

Definition K_binary_crossentropy (target output : tensor) : tensor :=
  elementwise binary_crossentropy target output.

Definition masked_binary_crossentropy (y_true y_pred : tensor) : list num :=
  let mask := is_nan y_true in
  let cross_entropy_values := K_binary_crossentropy y_true y_pred in
  let sum_cross_entropy_values :=
    K_sum (K_switch mask (K_zeros (K_shape cross_entropy_values))
             cross_entropy_values) in
  let n_valid_per_sample := K_sum (K_cast (invert mask)) in
  zip_with Num.div sum_cross_entropy_values n_valid_per_sample.

Definition masked_binary_crossentropy_sample (t p : list num) : num :=
  let mask := map Num.is_nan t in
  let cross_entropy_values := zip_with binary_crossentropy t p in
  Num.div
    (Num.sum (zip_with3 switch mask
                (replicate (length cross_entropy_values) Num.zero)
                cross_entropy_values))
    (n_valid_sample t).

End binary_crossentropy.

(** *** Shapes and entries *)

Definition has_shape (d : nat) (x : tensor) : Prop :=
  Forall (λ row, length row = d) x.

Definition equal_shaped (x y : tensor) : Prop :=
  Forall2 (λ r s : list num, length r = length s) x y.

Definition is_number (a : num) : Prop := Num.is_nan a = false.

Definition numeric (x : tensor) : Prop := Forall (Forall is_number) x.

(** A rational: neither an infinity nor NaN. *)
Definition is_finite (a : num) : Prop := ∃ q, a = Fin q.

Definition negative (a : num) : Prop := Num.ltb a Num.zero = true.

Definition not_negative (a : num) : Prop := Num.ltb a Num.zero = false.

(** The arrays have one shape, and wherever the prediction is negative the
    squared error is a rational: it is not NaN and it did not overflow. *)
Definition finite_where_negative (y_true y_pred : tensor) : Prop :=
  Forall2 (Forall2 (λ t p, negative p → is_finite (squared_error t p)))
    y_true y_pred.

(** [x] and [x'] have the shape of [m] and hold the same entry wherever the
    entry of [m] satisfies [keep]. *)
Definition agree_where (keep : num → Prop) (m x x' : tensor) : Prop :=
  Forall3 (Forall3 (λ c a a', keep c → a = a')) m x x'.

End losses.

(** ** Python values, exceptions and the store of dictionaries *)

Module Py.

Definition loc := nat.

(** The values that occur in a layer record or as [conv_filter_sizes]:
    scalars, lists, and references to dictionary objects. *)
Inductive pyval :=
| VNone
| VBool (b : bool)
| VInt (z : Z)
| VFloat (q : Qc)
| VStr (s : string)
| VList (vs : list pyval)
| VDict (l : loc).

Inductive exn :=
| ValueError (fmt : string) (args : list pyval)
| TypeError
| AttributeError (attribute : string)
| AssertionError
| DanglingReference.

Inductive result (A : Type) :=
| Ok (a : A)
| Raise (e : exn).
Arguments Ok {A} a.
Arguments Raise {A} e.

#[export] Instance result_ret : MRet result := λ A a, Ok a.
#[export] Instance result_bind : MBind result := λ A B f m,
  match m with
  | Ok a => f a
  | Raise e => Raise e
  end.

(** *** [str(int)] and [int(str)] *)

Definition str_of_int (z : Z) : string :=
  NilZero.string_of_int (Z.to_int z).

Definition is_space (c : ascii) : bool :=
  let n := nat_of_ascii c in
  ((9 <=? n)%nat && (n <=? 13)%nat) || ((28 <=? n)%nat && (n <=? 32)%nat).

Definition digit_of (c : ascii) : option (uint → uint) :=
  match c with
  | "0" => Some D0 | "1" => Some D1 | "2" => Some D2 | "3" => Some D3
  | "4" => Some D4 | "5" => Some D5 | "6" => Some D6 | "7" => Some D7
  | "8" => Some D8 | "9" => Some D9
  | _ => None
  end%char.

Fixpoint lstrip (s : list ascii) : list ascii :=
  match s with
  | c :: r => if is_space c then lstrip r else s
  | [] => []
  end.

(** Decimal digits, single underscores allowed between two digits, trailing
    white space allowed after the last digit. *)
Fixpoint parse_digits (s : list ascii) : option uint :=
  match s with
  | [] => None
  | c :: r =>
      match digit_of c with
      | None => None
      | Some d =>
          match r with
          | [] => Some (d Nil)
          | c' :: r' =>
              if is_space c' then
                if forallb is_space r' then Some (d Nil) else None
              else if Ascii.eqb c' "_" then d <$> parse_digits r'
              else d <$> parse_digits r
          end
      end
  end.

(** An optional sign in front of the digits; the flag says whether it is a
    minus. *)
Definition split_sign (s : list ascii) : bool * list ascii :=
  match s with
  | "-"%char :: r => (true, r)
  | "+"%char :: r => (false, r)
  | r => (false, r)
  end.

(** [int(s)] for an ASCII string [s]; [None] is Python's [ValueError].
    The interpreter's limit on the number of digits of a literal is not
    modelled. *)
Definition int_of_str (s : string) : option Z :=
  let '(minus, digits) := split_sign (lstrip (list_ascii_of_string s)) in
  u ← parse_digits digits;
  Some (Z.of_int (if minus : bool then Neg u else Pos u)).

Definition invalid_literal (s : string) : exn :=
  ValueError "invalid literal for int() with base 10: %r" [VStr s].

(** Truncation towards zero, [int(x)] for a float [x]. *)
Definition truncate (q : Qc) : Z :=
  if bool_decide (0 ≤ q)%Qc then Qfloor q else Qceiling q.

(** [int(v)] *)
Definition int (v : pyval) : result Z :=
  match v with
  | VInt z => Ok z
  | VBool b => Ok (Z.b2z b)
  | VFloat q => Ok (truncate q)
  | VStr s =>
      match int_of_str s with
      | Some z => Ok z
      | None => Raise (invalid_literal s)
      end
  | VNone | VList _ | VDict _ => Raise TypeError
  end.

(** [v > 1] *)
Definition gt1 (v : pyval) : result bool :=
  match v with
  | VInt z => Ok (1 <? z)
  | VBool b => Ok (1 <? Z.b2z b)
  | VFloat q => Ok (bool_decide (1 < q)%Qc)
  | VNone | VStr _ | VList _ | VDict _ => Raise TypeError
  end.

(** [str(v)], for the values whose text does not depend on how floats are
    printed. *)
Definition str (v : pyval) : option string :=
  match v with
  | VNone => Some "None"
  | VBool true => Some "True"
  | VBool false => Some "False"
  | VInt z => Some (str_of_int z)
  | VStr s => Some s
  | VFloat _ | VList _ | VDict _ => None
  end.

(** [fmt % args] for the conversions [%s] and [%d]. *)
Fixpoint format (fmt : string) (args : list pyval) : option string :=
  match fmt with
  | EmptyString =>
      match args with
      | [] => Some EmptyString
      | _ :: _ => None
      end
  | String "%" (String c rest) =>
      match args with
      | a :: args' =>
          text ← (if Ascii.eqb c "s" then str a
                  else if Ascii.eqb c "d" then
                    match a with VInt z => Some (str_of_int z) | _ => None end
                  else None);
          tail ← format rest args';
          Some (text ++ tail)%string
      | [] => None
      end
  | String c rest => String c <$> format rest args
  end.

(** The text of an exception raised with a formatted message. *)
Definition message (e : exn) : option string :=
  match e with
  | ValueError fmt args => format fmt args
  | _ => None
  end.

(** *** Dictionaries *)

Inductive key :=
| KInt (z : Z)
| KStr (s : string).

#[export] Instance key_eq_dec : EqDecision key.
Proof. solve_decision. Defined.

(** A dictionary keeps its entries in insertion order, one per key. *)
Abbreviation dict := (list (key * pyval)).

Fixpoint dict_get (k : key) (d : dict) : option pyval :=
  match d with
  | [] => None
  | (k', v) :: r => if decide (k' = k) then Some v else dict_get k r
  end.

Fixpoint dict_remove (k : key) (d : dict) : dict :=
  match d with
  | [] => []
  | (k', v) :: r => if decide (k' = k) then r else (k', v) :: dict_remove k r
  end.

(** [d[k] = v]: an existing key keeps its position. *)
Fixpoint dict_set (k : key) (v : pyval) (d : dict) : dict :=
  match d with
  | [] => [(k, v)]
  | (k', v') :: r =>
      if decide (k' = k) then (k', v) :: r else (k', v') :: dict_set k v r
  end.

Definition dict_keys (d : dict) : list key := d.*1.

Definition key_value (k : key) : pyval :=
  match k with
  | KInt z => VInt z
  | KStr s => VStr s
  end.

(** [int(k)] for a dictionary key. *)
Definition int_of_key (k : key) : result Z := int (key_value k).

(** *** The store and the monad of the code that reads and writes it *)

Abbreviation heap := (list dict).

Definition M (A : Type) : Type := heap → result A * heap.

#[export] Instance M_ret : MRet M := λ A a h, (Ok a, h).
#[export] Instance M_bind : MBind M := λ A B f m h,
  match m h with
  | (Ok a, h') => f a h'
  | (Raise e, h') => (Raise e, h')
  end.

Definition raise {A} (e : exn) : M A := λ h, (Raise e, h).

Definition lift {A} (r : result A) : M A := λ h, (r, h).

(** Python has no reference to a dictionary that does not exist; the model
    reports a location outside the store. *)
Definition read (l : loc) : M dict := λ h,
  match h !! l with
  | Some d => (Ok d, h)
  | None => (Raise DanglingReference, h)
  end.

Definition write (l : loc) (d : dict) : M unit := λ h, (Ok (), <[l := d]> h).

(** A new dictionary object. *)
Definition alloc (d : dict) : M loc := λ h, (Ok (length h), h ++ [d]).

(** [d.pop(k, default)] *)
Definition pop (l : loc) (k : key) (default : pyval) : M pyval :=
  d ← read l;
  match dict_get k d with
  | Some v => write l (dict_remove k d);; mret v
  | None => mret default
  end.

(** [bool(v)] *)
Definition truthy (v : pyval) : M bool :=
  match v with
  | VNone => mret false
  | VBool b => mret b
  | VInt z => mret (negb (z =? 0))
  | VFloat q => mret (negb (bool_decide (q = 0%Qc)))
  | VStr s => mret (negb (String.eqb s ""))
  | VList vs => mret (negb (bool_decide (vs = [])))
  | VDict l => d ← read l; mret (negb (bool_decide (d = [])))
  end.

Definition isinstance_dict (v : pyval) : bool :=
  match v with
  | VDict _ => true
  | _ => false
  end.

(** [len(v)] *)
Definition len (v : pyval) : M Z :=
  match v with
  | VStr s => mret (Z.of_nat (String.length s))
  | VList vs => mret (Z.of_nat (length vs))
  | VDict l => d ← read l; mret (Z.of_nat (length d))
  | VNone | VBool _ | VInt _ | VFloat _ => raise TypeError
  end.

(** The elements a [for] loop over [v] visits. *)
Definition iter (v : pyval) : M (list pyval) :=
  match v with
  | VStr s => mret ((λ c, VStr (String c "")) <$> list_ascii_of_string s)
  | VList vs => mret vs
  | VDict l => d ← read l; mret (key_value <$> dict_keys d)
  | VNone | VBool _ | VInt _ | VFloat _ => raise TypeError
  end.

(** [v.items()] *)
Definition items (v : pyval) : M (list (key * pyval)) :=
  match v with
  | VDict l => read l
  | _ => raise (AttributeError "items")
  end.

(** A loop over [xs] that threads the loop-carried variables [s]. *)
Fixpoint for_each {A S} (xs : list A) (body : A → S → M S) (s : S) : M S :=
  match xs with
  | [] => mret s
  | x :: r => s' ← body x s; for_each r body s'
  end.

(** [m] leaves the store [h] as it is, whether it returns or raises. *)
Definition preserves {A} (m : M A) (h : heap) : Prop := (m h).2 = h.

(** Whatever the store [h] it starts in, and whether it returns or raises,
    [m] ends in a store related to [h] by [R]. *)
Definition keeps (R : relation heap) {A} (m : M A) : Prop :=
  ∀ h, R h (m h).2.

Fixpoint map_M {A B} (f : A → M B) (xs : list A) : M (list B) :=
  match xs with
  | [] => mret []
  | x :: r => y ← f x; ys ← map_M f r; mret (y :: ys)
  end.

End Py.

(** ** The graph-building helpers

    [pepnet/nn_helpers.py] builds Keras layers.  A graph fragment is recorded
    here as the helper call that produced it, with the arguments the call was
    given; the helpers are not interpreted further. *)

Module nn_helpers.
Import Py.

Inductive tensor :=
| make_index_sequence_input (name : option string) (length : Z)
| make_vector_sequence_input (name : option string) (length : Z)
    (n_dims : option Z)
| embedding (x : tensor) (n_symbols output_dim : Z) (mask_zero : option bool)
    (dropout : Qc)
| aligned_convolutions (x : tensor) (filter_sizes : list key)
    (output_dim : dict) (dropout batch_normalization activation : pyval)
    (weight_source : option tensor)
| local_max_pooling (x : tensor) (size stride : pyval)
| recurrent_layers (x : tensor) (layer_sizes : list Z) (rnn_type : string)
    (bidirectional return_sequences : bool)
| global_max_and_mean_pooling (x : tensor) (batch_normalization : bool)
    (dropout : Qc)
| flatten (x : tensor) (drop_mask : option bool)
| dense_layers (x : tensor) (layer_sizes : list Z) (activation : string)
    (dropout : Qc) (batch_normalization : bool)
| highway_layers (x : tensor) (activation : string) (n_layers : Z)
    (dropout : Qc) (batch_normalization : bool).

(** Modelled from the spec: [K.ndim] of a fragment built by the helpers of
    [nn_helpers.py], which is not among the sources.  Inputs carry a batch
    and a time axis (and a feature axis unless they hold indices), an
    embedding adds the feature axis, convolutions and local pooling keep the
    time axis, a recurrent stack keeps it only with [return_sequences], and
    global pooling and flattening reduce to one feature axis. *)
Fixpoint ndim (t : tensor) : nat :=
  match t with
  | make_index_sequence_input _ _ => 2
  | make_vector_sequence_input _ _ _ => 3
  | embedding x _ _ _ _ => S (ndim x)
  | aligned_convolutions x _ _ _ _ _ _ => ndim x
  | local_max_pooling x _ _ => ndim x
  | recurrent_layers x _ _ _ return_sequences =>
      if return_sequences then ndim x else 2
  | global_max_and_mean_pooling _ _ _ => 2
  | flatten _ _ => 2
  | dense_layers x _ _ _ _ => ndim x
  | highway_layers x _ _ _ _ => ndim x
  end%nat.

End nn_helpers.

(** ** output.py *)

Module output.
Import Py.

(** A loss is a function of the ground truth and the prediction. *)
Definition loss_function := losses.tensor → losses.tensor → list num.

(** The attributes of an [Output] that its methods below read; the dense
    sub-stack and the transforms belong to the base class [Numeric]. *)
Record Output := {
  dim : Z;
  activation : string;
  name : option string;
  loss : string;
  inverse_transform : option (losses.tensor → losses.tensor);
  mask_negative : bool;
}.

Definition decode (self : Output) (x : losses.tensor) : losses.tensor :=
  match inverse_transform self with
  | Some f => f x
  | None => x
  end.

Section loss_fn.

(** [keras.losses.deserialize], the framework's registry of losses. *)
Variable keras_losses_deserialize : string → result loss_function.

Definition loss_fn (self : Output) : result loss_function :=
  if mask_negative self then
    if String.eqb (loss self) "mse" then
      Ok losses.positive_only_mse
    else
      Raise (ValueError "No masked loss available for '%s'" [VStr (loss self)])
  else
    keras_losses_deserialize (loss self).

End loss_fn.

End output.

(** ** sequence_input.py *)

Module sequence_input.
Import Py nn_helpers.

(** [pepnet/encoder.py] is not among the sources: the encoder is an
    interface, its constructor (which may reject its arguments) and its
    vocabulary. *)
Class EncoderAPI := {
  Encoder : Type;
  new_Encoder (variable_length_sequences add_start_tokens add_stop_tokens
               add_normalized_position add_normalized_centrality : bool) :
    result Encoder;
  tokens : Encoder → list string;
}.

(** The arguments of [SequenceInput.__init__], typed as its docstring types
    them.  [conv_filter_sizes] stays a Python value, since [_build_conv]
    dispatches on what it is; [conv_weight_source] is absent, a tensor, or
    another descriptor of type [SI]. *)
Record InitArgs (SI : Type) := {
  length : Z;
  name : option string;
  variable_length : bool;
  mask_zero : option bool;
  encoding : string;
  add_start_tokens : bool;
  add_stop_tokens : bool;
  add_normalized_position : bool;
  add_normalized_centrality : bool;
  return_sequences : bool;
  embedding_dim : Z;
  embedding_dropout : Qc;
  conv_filter_sizes : pyval;
  repeat_conv_layers : Z;
  conv_dropout : Qc;
  conv_batch_normalization : bool;
  conv_activation : string;
  conv_weight_source : option (tensor + SI);
  pool_size : Z;
  pool_stride : Z;
  rnn_layer_sizes : Z + list Z;
  rnn_type : string;
  rnn_bidirectional : bool;
  global_pooling : bool;
  global_pooling_batch_normalization : bool;
  global_pooling_dropout : Qc;
  dense_layer_sizes : list Z;
  dense_activation : string;
  dense_dropout : Qc;
  dense_batch_normalization : bool;
  n_highway_layers : Z;
  highway_activation : string;
  highway_batch_normalization : bool;
  highway_dropout : Qc;
}.
Arguments Build_InitArgs {SI}.
Arguments length {SI}.
Arguments name {SI}.
Arguments variable_length {SI}.
Arguments mask_zero {SI}.
Arguments encoding {SI}.
Arguments add_start_tokens {SI}.
Arguments add_stop_tokens {SI}.
Arguments add_normalized_position {SI}.
Arguments add_normalized_centrality {SI}.
Arguments return_sequences {SI}.
Arguments embedding_dim {SI}.
Arguments embedding_dropout {SI}.
Arguments conv_filter_sizes {SI}.
Arguments repeat_conv_layers {SI}.
Arguments conv_dropout {SI}.
Arguments conv_batch_normalization {SI}.
Arguments conv_activation {SI}.
Arguments conv_weight_source {SI}.
Arguments pool_size {SI}.
Arguments pool_stride {SI}.
Arguments rnn_layer_sizes {SI}.
Arguments rnn_type {SI}.
Arguments rnn_bidirectional {SI}.
Arguments global_pooling {SI}.
Arguments global_pooling_batch_normalization {SI}.
Arguments global_pooling_dropout {SI}.
Arguments dense_layer_sizes {SI}.
Arguments dense_activation {SI}.
Arguments dense_dropout {SI}.
Arguments dense_batch_normalization {SI}.
Arguments n_highway_layers {SI}.
Arguments highway_activation {SI}.
Arguments highway_batch_normalization {SI}.
Arguments highway_dropout {SI}.

(** The defaults of the signature; only [length] is required. *)
Definition defaults {SI} (length : Z) : InitArgs SI := {|
  length := length;
  name := None;
  variable_length := false;
  mask_zero := None;
  encoding := "onehot";
  add_start_tokens := false;
  add_stop_tokens := false;
  add_normalized_position := false;
  add_normalized_centrality := false;
  return_sequences := false;
  embedding_dim := 32;
  embedding_dropout := 0%Qc;
  conv_filter_sizes := VList [];
  repeat_conv_layers := 1;
  conv_dropout := 0%Qc;
  conv_batch_normalization := false;
  conv_activation := "linear";
  conv_weight_source := None;
  pool_size := 3;
  pool_stride := 2;
  rnn_layer_sizes := inr [];
  rnn_type := "lstm";
  rnn_bidirectional := true;
  global_pooling := false;
  global_pooling_batch_normalization := false;
  global_pooling_dropout := 0%Qc;
  dense_layer_sizes := [];
  dense_activation := "relu";
  dense_dropout := Qc_of_Z 1 / Qc_of_Z 4;
  dense_batch_normalization := false;
  n_highway_layers := 0;
  highway_activation := "tanh";
  highway_batch_normalization := false;
  highway_dropout := 0%Qc;
|}%Qc.

(** Keyword arguments: [with_f v a] is [a] with the argument [f] given as
    [v]. *)

Definition with_mask_zero {SI} (v : option bool) (a : InitArgs SI) :
    InitArgs SI :=
  Build_InitArgs
    (length a) (name a) (variable_length a) v (encoding a)
    (add_start_tokens a) (add_stop_tokens a) (add_normalized_position a)
    (add_normalized_centrality a) (return_sequences a) (embedding_dim a)
    (embedding_dropout a) (conv_filter_sizes a) (repeat_conv_layers a)
    (conv_dropout a) (conv_batch_normalization a) (conv_activation a)
    (conv_weight_source a) (pool_size a) (pool_stride a) (rnn_layer_sizes a)
    (rnn_type a) (rnn_bidirectional a) (global_pooling a)
    (global_pooling_batch_normalization a) (global_pooling_dropout a)
    (dense_layer_sizes a) (dense_activation a) (dense_dropout a)
    (dense_batch_normalization a) (n_highway_layers a) (highway_activation a)
    (highway_batch_normalization a) (highway_dropout a).

Definition with_conv_filter_sizes {SI} (v : pyval) (a : InitArgs SI) :
    InitArgs SI :=
  Build_InitArgs
    (length a) (name a) (variable_length a) (mask_zero a) (encoding a)
    (add_start_tokens a) (add_stop_tokens a) (add_normalized_position a)
    (add_normalized_centrality a) (return_sequences a) (embedding_dim a)
    (embedding_dropout a) v (repeat_conv_layers a) (conv_dropout a)
    (conv_batch_normalization a) (conv_activation a) (conv_weight_source a)
    (pool_size a) (pool_stride a) (rnn_layer_sizes a) (rnn_type a)
    (rnn_bidirectional a) (global_pooling a)
    (global_pooling_batch_normalization a) (global_pooling_dropout a)
    (dense_layer_sizes a) (dense_activation a) (dense_dropout a)
    (dense_batch_normalization a) (n_highway_layers a) (highway_activation a)
    (highway_batch_normalization a) (highway_dropout a).

Definition with_encoding {SI} (v : string) (a : InitArgs SI) :
    InitArgs SI :=
  Build_InitArgs
    (length a) (name a) (variable_length a) (mask_zero a) v
    (add_start_tokens a) (add_stop_tokens a) (add_normalized_position a)
    (add_normalized_centrality a) (return_sequences a) (embedding_dim a)
    (embedding_dropout a) (conv_filter_sizes a) (repeat_conv_layers a)
    (conv_dropout a) (conv_batch_normalization a) (conv_activation a)
    (conv_weight_source a) (pool_size a) (pool_stride a) (rnn_layer_sizes a)
    (rnn_type a) (rnn_bidirectional a) (global_pooling a)
    (global_pooling_batch_normalization a) (global_pooling_dropout a)
    (dense_layer_sizes a) (dense_activation a) (dense_dropout a)
    (dense_batch_normalization a) (n_highway_layers a) (highway_activation a)
    (highway_batch_normalization a) (highway_dropout a).

Definition with_variable_length {SI} (v : bool) (a : InitArgs SI) :
    InitArgs SI :=
  Build_InitArgs
    (length a) (name a) v (mask_zero a) (encoding a) (add_start_tokens a)
    (add_stop_tokens a) (add_normalized_position a)
    (add_normalized_centrality a) (return_sequences a) (embedding_dim a)
    (embedding_dropout a) (conv_filter_sizes a) (repeat_conv_layers a)
    (conv_dropout a) (conv_batch_normalization a) (conv_activation a)
    (conv_weight_source a) (pool_size a) (pool_stride a) (rnn_layer_sizes a)
    (rnn_type a) (rnn_bidirectional a) (global_pooling a)
    (global_pooling_batch_normalization a) (global_pooling_dropout a)
    (dense_layer_sizes a) (dense_activation a) (dense_dropout a)
    (dense_batch_normalization a) (n_highway_layers a) (highway_activation a)
    (highway_batch_normalization a) (highway_dropout a).

Definition with_add_normalized_position {SI} (v : bool) (a : InitArgs SI) :
    InitArgs SI :=
  Build_InitArgs
    (length a) (name a) (variable_length a) (mask_zero a) (encoding a)
    (add_start_tokens a) (add_stop_tokens a) v (add_normalized_centrality a)
    (return_sequences a) (embedding_dim a) (embedding_dropout a)
    (conv_filter_sizes a) (repeat_conv_layers a) (conv_dropout a)
    (conv_batch_normalization a) (conv_activation a) (conv_weight_source a)
    (pool_size a) (pool_stride a) (rnn_layer_sizes a) (rnn_type a)
    (rnn_bidirectional a) (global_pooling a)
    (global_pooling_batch_normalization a) (global_pooling_dropout a)
    (dense_layer_sizes a) (dense_activation a) (dense_dropout a)
    (dense_batch_normalization a) (n_highway_layers a) (highway_activation a)
    (highway_batch_normalization a) (highway_dropout a).

Definition with_add_normalized_centrality {SI} (v : bool) (a : InitArgs SI) :
    InitArgs SI :=
  Build_InitArgs
    (length a) (name a) (variable_length a) (mask_zero a) (encoding a)
    (add_start_tokens a) (add_stop_tokens a) (add_normalized_position a) v
    (return_sequences a) (embedding_dim a) (embedding_dropout a)
    (conv_filter_sizes a) (repeat_conv_layers a) (conv_dropout a)
    (conv_batch_normalization a) (conv_activation a) (conv_weight_source a)
    (pool_size a) (pool_stride a) (rnn_layer_sizes a) (rnn_type a)
    (rnn_bidirectional a) (global_pooling a)
    (global_pooling_batch_normalization a) (global_pooling_dropout a)
    (dense_layer_sizes a) (dense_activation a) (dense_dropout a)
    (dense_batch_normalization a) (n_highway_layers a) (highway_activation a)
    (highway_batch_normalization a) (highway_dropout a).

Definition with_repeat_conv_layers {SI} (v : Z) (a : InitArgs SI) :
    InitArgs SI :=
  Build_InitArgs
    (length a) (name a) (variable_length a) (mask_zero a) (encoding a)
    (add_start_tokens a) (add_stop_tokens a) (add_normalized_position a)
    (add_normalized_centrality a) (return_sequences a) (embedding_dim a)
    (embedding_dropout a) (conv_filter_sizes a) v (conv_dropout a)
    (conv_batch_normalization a) (conv_activation a) (conv_weight_source a)
    (pool_size a) (pool_stride a) (rnn_layer_sizes a) (rnn_type a)
    (rnn_bidirectional a) (global_pooling a)
    (global_pooling_batch_normalization a) (global_pooling_dropout a)
    (dense_layer_sizes a) (dense_activation a) (dense_dropout a)
    (dense_batch_normalization a) (n_highway_layers a) (highway_activation a)
    (highway_batch_normalization a) (highway_dropout a).

Definition with_pool_size {SI} (v : Z) (a : InitArgs SI) :
    InitArgs SI :=
  Build_InitArgs
    (length a) (name a) (variable_length a) (mask_zero a) (encoding a)
    (add_start_tokens a) (add_stop_tokens a) (add_normalized_position a)
    (add_normalized_centrality a) (return_sequences a) (embedding_dim a)
    (embedding_dropout a) (conv_filter_sizes a) (repeat_conv_layers a)
    (conv_dropout a) (conv_batch_normalization a) (conv_activation a)
    (conv_weight_source a) v (pool_stride a) (rnn_layer_sizes a) (rnn_type a)
    (rnn_bidirectional a) (global_pooling a)
    (global_pooling_batch_normalization a) (global_pooling_dropout a)
    (dense_layer_sizes a) (dense_activation a) (dense_dropout a)
    (dense_batch_normalization a) (n_highway_layers a) (highway_activation a)
    (highway_batch_normalization a) (highway_dropout a).

Definition with_pool_stride {SI} (v : Z) (a : InitArgs SI) :
    InitArgs SI :=
  Build_InitArgs
    (length a) (name a) (variable_length a) (mask_zero a) (encoding a)
    (add_start_tokens a) (add_stop_tokens a) (add_normalized_position a)
    (add_normalized_centrality a) (return_sequences a) (embedding_dim a)
    (embedding_dropout a) (conv_filter_sizes a) (repeat_conv_layers a)
    (conv_dropout a) (conv_batch_normalization a) (conv_activation a)
    (conv_weight_source a) (pool_size a) v (rnn_layer_sizes a) (rnn_type a)
    (rnn_bidirectional a) (global_pooling a)
    (global_pooling_batch_normalization a) (global_pooling_dropout a)
    (dense_layer_sizes a) (dense_activation a) (dense_dropout a)
    (dense_batch_normalization a) (n_highway_layers a) (highway_activation a)
    (highway_batch_normalization a) (highway_dropout a).

(** What [encode] ends in: the call of an encoder method, or the use of
    [fn] before any branch has bound it. *)
Inductive encoded (A : Type) :=
| Called (r : result A)
| UnboundLocalError.
Arguments Called {A} r.
Arguments UnboundLocalError {A}.

Section descriptor.
Context `{EncoderAPI}.

(** A constructed descriptor: the attributes that hold the arguments as
    given ([cfg], in which [mask_zero] holds the resolved flag) and the
    derived attributes. *)
Inductive SequenceInput := Build_SequenceInput {
  cfg :> InitArgs SequenceInput;
  padded_length : Z;
  encoder : Encoder;
  n_symbols : Z;
  extra_input_dims : Z;
  n_input_dims : option Z;
}.

Definition allowed_encodings : list string :=
  ["embedding"; "onehot"; "blosum"; "pmbec"].

Definition is_None (v : pyval) : bool :=
  match v with
  | VNone => true
  | _ => false
  end.

(** [SequenceInput.__init__], with assertions enabled. *)
Definition __init__ (a : InitArgs SequenceInput) : result SequenceInput :=
  if negb (bool_decide (encoding a ∈ allowed_encodings)) then
    Raise (ValueError "Invalid encoding: %s" [VStr (encoding a)])
  else
    let padded_length :=
      length a + Z.b2z (add_start_tokens a) + Z.b2z (add_stop_tokens a) in
    encoder ← new_Encoder (variable_length a) (add_start_tokens a)
                 (add_stop_tokens a) (add_normalized_position a)
                 (add_normalized_centrality a);
    let n_symbols := Z.of_nat (Datatypes.length (tokens encoder)) in
    let extra_input_dims :=
      Z.b2z (add_normalized_position a)
      + Z.b2z (add_normalized_centrality a) in
    n_input_dims ←
      (if String.eqb (encoding a) "embedding" then
         if is_None (VInt extra_input_dims) then Ok None
         else Raise AssertionError
       else if String.eqb (encoding a) "onehot" then
         Ok (Some (n_symbols + extra_input_dims))
       else
         Ok (Some (20 + extra_input_dims)));
    let mask_zero :=
      match mask_zero a with
      | None => variable_length a
      | Some b => b
      end in
    Ok {| cfg := with_mask_zero (Some mask_zero) a;
          padded_length := padded_length;
          encoder := encoder;
          n_symbols := n_symbols;
          extra_input_dims := extra_input_dims;
          n_input_dims := n_input_dims |}.

Definition _build_input (self : SequenceInput) : tensor :=
  if String.eqb (encoding self) "embedding" then
    make_index_sequence_input (name self) (padded_length self)
  else
    make_vector_sequence_input (name self) (padded_length self)
      (n_input_dims self).

Definition _build_embedding (self : SequenceInput) (input_object : tensor) :
    result tensor :=
  if String.eqb (encoding self) "embedding" then
    if embedding_dim self <=? 0 then
      Raise (ValueError "Invalid embedding dim: %d" [VInt (embedding_dim self)])
    else
      Ok (embedding input_object (n_symbols self) (embedding_dim self)
            (mask_zero self) (embedding_dropout self))
  else Ok input_object.

(** [str(type(v))] *)
Definition type_repr (v : pyval) : string :=
  match v with
  | VNone => "<class 'NoneType'>"
  | VBool _ => "<class 'bool'>"
  | VInt _ => "<class 'int'>"
  | VFloat _ => "<class 'float'>"
  | VStr _ => "<class 'str'>"
  | VList _ => "<class 'list'>"
  | VDict _ => "<class 'dict'>"
  end.

(** The keys of a layer record that are overrides, not filter widths. *)
Definition override_keys : list key :=
  [KStr "pool_size"; KStr "pool_stride"; KStr "batch_normalization";
   KStr "activation"; KStr "dropout"].

Definition no_overrides (d : dict) : Prop :=
  Forall (λ k, dict_get k d = None) override_keys.

(** The body of the inner loop of [_build_conv]; the loop carries [value]
    and [conv_layer_index]. *)
Definition conv_layer (self : SequenceInput)
    (conv_weight_source : option tensor) (n_conv_layers : Z)
    (conv_layer_dict : pyval) (carried : tensor * Z) : M (tensor * Z) :=
  let '(value, conv_layer_index) := carried in
  match conv_layer_dict with
  | VDict l =>
      pool_size ← pop l (KStr "pool_size") (VInt (pool_size self));
      pool_stride ← pop l (KStr "pool_stride") (VInt (pool_stride self));
      batch_normalization ←
        pop l (KStr "batch_normalization")
          (VBool (conv_batch_normalization self));
      activation ← pop l (KStr "activation") (VStr (conv_activation self));
      dropout ← pop l (KStr "dropout") (VFloat (conv_dropout self));
      maxpooling ←
        lift (b ← gt1 pool_size;
              if b : bool then Ok true else gt1 pool_stride);
      d ← read l;
      if bool_decide (Datatypes.length d = 0%nat) then
        mret (value, conv_layer_index)
      else
        let value :=
          aligned_convolutions value (dict_keys d) d dropout
            batch_normalization activation conv_weight_source in
        let conv_layer_index := conv_layer_index + 1 in
        if maxpooling && (conv_layer_index <? n_conv_layers) then
          mret (local_max_pooling value pool_size pool_stride,
                conv_layer_index)
        else mret (value, conv_layer_index)
  | v =>
      raise (ValueError
               ("Each element of conv_filter_sizes must be a "
                ++ "{width: num_filters} dictionary, "
                ++ "got %s : %s instead.")
               [v; VStr (type_repr v)])
  end.

(** [range(n)] *)
Definition range (n : Z) : list Z := Z.of_nat <$> seq 0 (Z.to_nat n).

(** [build_source] is [build], for the descriptor that
    [conv_weight_source] may hold. *)
Definition _build_conv (build_source : SequenceInput → M (tensor * tensor))
    (self : SequenceInput) (value : tensor) : M tensor :=
  nonempty ← truthy (conv_filter_sizes self);
  if nonempty : bool then
    let conv_filter_sizes :=
      if isinstance_dict (conv_filter_sizes self)
      then VList [conv_filter_sizes self]
      else conv_filter_sizes self in
    conv_weight_source ←
      match conv_weight_source self with
      | Some (inr source) => built ← build_source source; mret (Some built.2)
      | Some (inl t) => mret (Some t)
      | None => mret None
      end;
    let conv_layer_index := 0 in
    n ← len conv_filter_sizes;
    let n_conv_layers := repeat_conv_layers self * n in
    carried ←
      for_each (range (repeat_conv_layers self))
        (λ _ carried,
           layers ← iter conv_filter_sizes;
           for_each layers
             (conv_layer self conv_weight_source n_conv_layers) carried)
        (value, conv_layer_index);
    mret carried.1
  else mret value.

Definition _build_rnn (self : SequenceInput) (value : tensor) : tensor :=
  let rnn_layer_sizes :=
    match rnn_layer_sizes self with
    | inl n => [n]
    | inr sizes => sizes
    end in
  if (0 <? Datatypes.length rnn_layer_sizes)%nat then
    recurrent_layers value rnn_layer_sizes (rnn_type self)
      (rnn_bidirectional self) (return_sequences self)
  else value.

Definition _build_global_pooling (self : SequenceInput) (value : tensor) :
    tensor :=
  if global_pooling self then
    global_max_and_mean_pooling value
      (global_pooling_batch_normalization self) (global_pooling_dropout self)
  else value.

Definition _build_dense (self : SequenceInput) (value : tensor) : tensor :=
  let value :=
    if (2 <? ndim value)%nat && negb (return_sequences self)
    then flatten value (mask_zero self)
    else value in
  dense_layers value (dense_layer_sizes self) (dense_activation self)
    (dense_dropout self) (dense_batch_normalization self).

Definition _build_highway (self : SequenceInput) (value : tensor) : tensor :=
  let value :=
    if (2 <? ndim value)%nat && negb (return_sequences self)
    then flatten value (mask_zero self)
    else value in
  if negb (n_highway_layers self =? 0) then
    highway_layers value (highway_activation self) (n_highway_layers self)
      (highway_dropout self) (highway_batch_normalization self)
  else value.

Fixpoint build (self : SequenceInput) : M (tensor * tensor) :=
  let input_object := _build_input self in
  value ← lift (_build_embedding self input_object);
  value ← _build_conv build self value;
  let value := _build_rnn self value in
  let value := _build_global_pooling self value in
  let value := _build_dense self value in
  let value := _build_highway self value in
  mret (input_object, value).

(** *** The convolution stack, as the specification describes it *)

(** One convolutional layer and one pooling step with the settings of the
    stack. *)
Definition convolution (self : SequenceInput) (ws : option tensor)
    (value : tensor) (d : dict) : tensor :=
  aligned_convolutions value (dict_keys d) d (VFloat (conv_dropout self))
    (VBool (conv_batch_normalization self)) (VStr (conv_activation self)) ws.

Definition pooling (self : SequenceInput) (value : tensor) : tensor :=
  local_max_pooling value (VInt (pool_size self)) (VInt (pool_stride self)).

(** The stack the specification describes: max-pooling after every
    convolutional layer except the last. *)
Fixpoint pooled_stack (self : SequenceInput) (ws : option tensor)
    (value : tensor) (ds : list dict) : tensor :=
  match ds with
  | [] => value
  | d :: rest =>
      let value := convolution self ws value d in
      match rest with
      | [] => value
      | _ :: _ => pooled_stack self ws (pooling self value) rest
      end
  end.

(** The stack the loop builds from the records [ds], none of them skipped,
    when it starts with the carried [value] and [conv_layer_index]. *)
Fixpoint indexed_stack (self : SequenceInput) (ws : option tensor)
    (n_conv_layers : Z) (ds : list dict) (carried : tensor * Z) :
    tensor * Z :=
  match ds with
  | [] => carried
  | d :: rest =>
      let value := convolution self ws carried.1 d in
      let conv_layer_index := carried.2 + 1 in
      indexed_stack self ws n_conv_layers rest
        (if conv_layer_index <? n_conv_layers then pooling self value
         else value,
         conv_layer_index)
  end.

(** The weight source [_build_conv] passes on when it is not a
    descriptor. *)
Definition given_weight_source (self : SequenceInput) : option tensor :=
  match conv_weight_source self with
  | Some (inl t) => Some t
  | _ => None
  end.

(** *** Serialisation *)

(** [{int(k): int(v) for (k, v) in items}], filled in iteration order. *)
Fixpoint integer_keys (items : list (key * pyval)) (acc : dict) :
    result dict :=
  match items with
  | [] => Ok acc
  | (k, v) :: rest =>
      k' ← int_of_key k;
      v' ← int v;
      integer_keys rest (dict_set (KInt k') (VInt v') acc)
  end.

(** The body of the loop of [from_dict]: the dictionary with integer keys
    made from one layer record. *)
Definition from_dict_layer (layer_dictionary : pyval) : M pyval :=
  kvs ← items layer_dictionary;
  d ← lift (integer_keys kvs []);
  l ← alloc d;
  mret (VDict l).

(** [SequenceInput.from_dict]; the configuration mapping has the
    constructor's keywords as its keys.  The mapping is the caller's: the
    code pops "conv_filter_sizes" from it and puts the converted list back
    when the loop has run through.  The model follows the store of layer
    records and the descriptor; what is left in the caller's mapping, and a
    mapping without the key, are outside it. *)
Definition from_dict (config_dict : InitArgs SequenceInput) :
    M SequenceInput :=
  layers ← iter (conv_filter_sizes config_dict);
  conv_filter_sizes_with_integer_keys ← map_M from_dict_layer layers;
  lift (__init__
          (with_conv_filter_sizes (VList conv_filter_sizes_with_integer_keys)
             config_dict)).

(** [Serializable.to_dict]: the configuration mapping holds, under each
    keyword of the constructor, the attribute of that name. *)
Definition to_dict (self : SequenceInput) : InitArgs SequenceInput := cfg self.

(** What a pass through JSON text does to a dictionary: an integer key
    comes back as the string of its decimal digits. *)
Definition json_key (k : key) : key :=
  match k with
  | KInt z => KStr (str_of_int z)
  | KStr s => KStr s
  end.

Definition json_dict (d : dict) : dict :=
  foldl (λ acc (kv : key * pyval), dict_set (json_key kv.1) kv.2 acc) [] d.

Definition json_entry (kv : key * pyval) : key * pyval :=
  (json_key kv.1, kv.2).

Definition json_layer (v : pyval) : M pyval :=
  match v with
  | VDict l => d ← read l; l' ← alloc (json_dict d); mret (VDict l')
  | v => mret v
  end.

(** The configuration mapping after it was written as JSON text and read
    back: the layer records of [conv_filter_sizes] are new dictionaries with
    string keys.  A tensor or a descriptor under [conv_weight_source] has no
    JSON text: the encoder raises [TypeError]. *)
Definition json_roundtrip (config_dict : InitArgs SequenceInput) :
    M (InitArgs SequenceInput) :=
  match conv_weight_source config_dict with
  | Some _ => raise TypeError
  | None =>
      v ← match conv_filter_sizes config_dict with
          | VList vs => vs' ← map_M json_layer vs; mret (VList vs')
          | v => json_layer v
          end;
      mret (with_conv_filter_sizes v config_dict)
  end.

(** The layer records a value of [conv_filter_sizes] denotes in a store. *)
Definition layer_records (h : heap) (v : pyval) : option (list dict) :=
  match v with
  | VList vs =>
      mapM (λ v, match v with VDict l => h !! l | _ => None end) vs
  | _ => None
  end.

(** Serialise to the configuration mapping, pass it through JSON text, and
    reconstruct. *)
Definition roundtrip (self : SequenceInput) : M SequenceInput :=
  config_dict ← json_roundtrip (to_dict self);
  from_dict config_dict.

(** What [from_dict_layer] stores for the record [d]. *)
Definition integer_keys_of (d : dict) : dict :=
  match integer_keys d [] with
  | Ok d' => d'
  | Raise _ => []
  end.

(** A step that reads the dictionary it is given and stores [g] of it in a
    new one. *)
Definition copies (step : pyval → M pyval) (P : dict → Prop)
    (g : dict → dict) : Prop :=
  ∀ (l : loc) (d : dict) (h : heap),
    P d → h !! l = Some d →
    step (VDict l) h = (Ok (VDict (Datatypes.length h)), h ++ [g d]).

(** A layer record that maps integer filter widths to integer filter
    counts. *)
Definition integer_record (d : dict) : Prop :=
  Forall (λ kv : key * pyval, ∃ k v, kv = (KInt k, VInt v)) d ∧ NoDup d.*1.

(** What the specification claims of [roundtrip] for the descriptor [self]
    in the store [h]: a descriptor comes back and its layer records are
    those of [self]. *)
Definition roundtrip_preserves (self : SequenceInput) (h : heap) : Prop :=
  ∃ self' h' ds,
    roundtrip self h = (Ok self', h')
    ∧ layer_records h (conv_filter_sizes self) = Some ds
    ∧ layer_records h' (conv_filter_sizes self') = Some ds.

(** *** What the convolution stack does to the store *)

(** [d'] is what is left of the record [d] when override keys are taken out
    of it: no entry is added or moved, and the entries under the other keys
    are all there. *)
Definition stripped (d d' : dict) : Prop :=
  sublist d' d ∧ ∀ k, k ∉ override_keys → dict_get k d' = dict_get k d.

(** The store [h'] holds the dictionaries of [h], each possibly with
    override keys taken out. *)
Definition shrinks (h h' : heap) : Prop := Forall2 stripped h h'.

(** The store [h'] is [h] itself when no dictionary of [h] carries an
    override key. *)
Definition same_without_overrides (h h' : heap) : Prop :=
  Forall no_overrides h → h' = h.

(** The descriptor [self] with [v] as its [conv_filter_sizes]. *)
Definition with_layers (v : pyval) (self : SequenceInput) : SequenceInput :=
  {| cfg := with_conv_filter_sizes v (cfg self);
     padded_length := padded_length self;
     encoder := encoder self;
     n_symbols := n_symbols self;
     extra_input_dims := extra_input_dims self;
     n_input_dims := n_input_dims self |}.

(** *** Encoding sequences *)

(** The methods of the encoder that [encode] calls; each takes the peptides
    and [max_peptide_length]. *)
Class EncoderMethods := {
  array : Type;
  encode_index_array : Encoder → list string → Z → result array;
  encode_onehot : Encoder → list string → Z → result array;
  encode_pmbec : Encoder → list string → Z → result array;
  encode_blosum : Encoder → list string → Z → result array;
}.

Definition encode `{EncoderMethods} (self : SequenceInput)
    (peptides : list string) : encoded array :=
  let fn :=
    if String.eqb (encoding self) "embedding" then Some encode_index_array
    else if String.eqb (encoding self) "onehot" then Some encode_onehot
    else if String.eqb (encoding self) "pmbec" then Some encode_pmbec
    else if String.eqb (encoding self) "blosum" then Some encode_blosum
    else None in
  match fn with
  | Some fn => Called (fn (encoder self) peptides (length self))
  | None => UnboundLocalError
  end.

End descriptor.

End sequence_input.

(** ** Inputs the properties below are evaluated on *)

Module examples.
Import Py nn_helpers sequence_input.

Definition y_true : losses.tensor :=
  [[Fin 1%Qc; Fin (Qc_of_Z 2)]; [Fin 0%Qc; Fin 1%Qc]].

Definition y_pred : losses.tensor :=
  [[Fin (Qc_of_Z (-1)); Fin (Qc_of_Z 3)];
   [Fin (Qc_of_Z (-2)); Fin (Qc_of_Z (-1))]].

(** The first feature of the first sample is unobserved. *)
Definition y_sparse : losses.tensor :=
  [[NaN; Fin (Qc_of_Z 2)]; [Fin 0%Qc; Fin 1%Qc]].

(** The first sample has no observed feature. *)
Definition y_unobserved : losses.tensor :=
  [[NaN; NaN]; [Fin 0%Qc; Fin 1%Qc]].

Definition masked_output (loss : string) : output.Output := {|
  output.dim := 1;
  output.activation := "linear";
  output.name := None;
  output.loss := loss;
  output.inverse_transform := None;
  output.mask_negative := true;
|}.

(** An encoder whose constructor accepts every argument, with the padding
    symbol and the twenty amino acids as its vocabulary. *)
#[export] Instance amino_acids : EncoderAPI := {|
  Encoder := unit;
  new_Encoder _ _ _ _ _ := Ok ();
  tokens _ :=
    ["-"; "A"; "C"; "D"; "E"; "F"; "G"; "H"; "I"; "K"; "L"; "M"; "N"; "P";
     "Q"; "R"; "S"; "T"; "V"; "W"; "Y"];
|}.

(** An encoder whose constructor rejects every argument. *)
Definition rejecting_encoder : EncoderAPI := {|
  Encoder := unit;
  new_Encoder _ _ _ _ _ := Raise TypeError;
  tokens _ := [];
|}.

(** [SequenceInput(length=9, conv_filter_sizes=[{3: 16, "pool_size": 2}])] *)
Definition override_args : InitArgs SequenceInput :=
  with_conv_filter_sizes (VList [VDict 0%nat]) (defaults 9).

Definition override_heap : heap :=
  [[(KInt 3, VInt 16); (KStr "pool_size", VInt 2)]].

(** [SequenceInput(length=9,
                   conv_filter_sizes=[{3: 16, "pool_size": 1, "pool_stride": 1},
                                      {5: 8}])] *)
Definition quiet_args : InitArgs SequenceInput :=
  with_conv_filter_sizes (VList [VDict 0%nat; VDict 1%nat]) (defaults 9).

Definition quiet_heap : heap :=
  [[(KInt 3, VInt 16); (KStr "pool_size", VInt 1);
    (KStr "pool_stride", VInt 1)];
   [(KInt 5, VInt 8)]].

(** [SequenceInput(length=9, repeat_conv_layers=2,
                   conv_filter_sizes=[{3: 16, "activation": "relu"}])] *)
Definition repeated_args : InitArgs SequenceInput :=
  with_repeat_conv_layers 2
    (with_conv_filter_sizes (VList [VDict 0%nat]) (defaults 9)).

Definition repeated_heap : heap :=
  [[(KInt 3, VInt 16); (KStr "activation", VStr "relu")]].

(** [SequenceInput(length=9,
                   conv_filter_sizes=[{3: 16}, {"pool_size": 2}])] *)
Definition skipped_args : InitArgs SequenceInput :=
  with_conv_filter_sizes (VList [VDict 0%nat; VDict 1%nat]) (defaults 9).

Definition skipped_heap : heap :=
  [[(KInt 3, VInt 16)]; [(KStr "pool_size", VInt 2)]].

(** [SequenceInput(length=9, conv_filter_sizes=[{3: 16}, {5: 8}])] *)
Definition two_layer_args : InitArgs SequenceInput :=
  with_conv_filter_sizes (VList [VDict 0%nat; VDict 1%nat]) (defaults 9).

Definition two_layer_heap : heap :=
  [[(KInt 3, VInt 16)]; [(KInt 5, VInt 8)]].

(** [SequenceInput(length=9, conv_filter_sizes=[{3: 16}, 3])] *)
Definition malformed_args : InitArgs SequenceInput :=
  with_conv_filter_sizes (VList [VDict 0%nat; VInt 3]) (defaults 9).

Definition malformed_heap : heap := [[(KInt 3, VInt 16)]].

(** The layer records of [two_layer_heap] as they come back from JSON
    text. *)
Definition string_key_heap : heap :=
  [[(KStr "3", VInt 16)]; [(KStr "5", VInt 8)]].

(** Encoder methods that tell which of them was called with which
    maximal length. *)
#[export] Instance named_methods : EncoderMethods := {|
  array := string * Z;
  encode_index_array _ _ n := Ok ("index_array", n);
  encode_onehot _ _ n := Ok ("onehot", n);
  encode_pmbec _ _ n := Ok ("pmbec", n);
  encode_blosum _ _ n := Ok ("blosum", n);
|}.

End examples.

(** * Properties *)

(** One step into a sequence of store-passing commands. *)
Ltac bind_step := unfold mbind at 1, Py.M_bind at 1.

(** ** Arithmetic with infinities and NaN *)

Section num_facts.
Import Num.

Lemma threshold_negative : (- overflow_threshold < 0)%Qc.
Proof. apply (bool_decide_unpack _). by vm_compute. Qed.

Lemma round_zero : round 0 = zero.
Proof. by vm_compute. Qed.

Lemma round_cases q : round q = Fin q ∨ round q = Inf (negative q).
Proof. unfold round. case_bool_decide; auto. Qed.

Lemma round_rounded q : rounded (round q).
Proof.
  unfold round. case_bool_decide as Hq; [|done]. cbn. unfold round.
  by rewrite bool_decide_eq_true_2.
Qed.

Lemma add_rounded a b : rounded (add a b).
Proof.
  destruct a as [x|s|], b as [y|s'|]; try done; cbn.
  - apply round_rounded.
  - by destruct (Bool.eqb s s').
Qed.

Lemma mul_rounded a b : rounded (mul a b).
Proof.
  destruct a as [x|s|], b as [y|s'|]; try done; cbn.
  - apply round_rounded.
  - by case_bool_decide.
  - by case_bool_decide.
Qed.

Lemma sum_rounded l : rounded (sum l).
Proof.
  destruct l as [|a l]; [apply round_zero|apply add_rounded].
Qed.

Lemma add_zero_l a : rounded a → add zero a = a.
Proof.
  destruct a as [q|s|]; try done. cbn. intros Hq. by rewrite Qcplus_0_l.
Qed.

Lemma mul_one_r a : rounded a → mul a one = a.
Proof.
  destruct a as [q|s|]; try done; cbn.
  - intros Hq. by rewrite Qcmult_1_r.
  - intros _. rewrite bool_decide_eq_false_2 by done.
    by destruct s.
Qed.

Lemma mul_zero_r q : mul (Fin q) zero = zero.
Proof. cbn. rewrite Qcmult_0_r. apply round_zero. Qed.

Lemma of_nat_0 : of_nat 0 = zero.
Proof.
  unfold of_nat. change (Z.of_nat 0) with 0%Z. rewrite Z2Qc_inj_0.
  apply round_zero.
Qed.

Lemma Qc_of_nat_nonneg n : (0 ≤ Qc_of_Z (Z.of_nat n))%Qc.
Proof.
  rewrite <- Z2Qc_inj_0. apply (proj1 (Z2Qc_inj_le 0 (Z.of_nat n))). lia.
Qed.

Lemma of_nat_S n : of_nat (S n) = add one (of_nat n).
Proof.
  unfold of_nat.
  replace (Qc_of_Z (Z.of_nat (S n))) with (1 + Qc_of_Z (Z.of_nat n))%Qc.
  2:{ by rewrite Nat2Z.inj_succ, <- Z.add_1_l, Z2Qc_inj_add. }
  pose proof (Qc_of_nat_nonneg n) as Hn. set (x := Qc_of_Z (Z.of_nat n)) in *.
  unfold round at 2. case_bool_decide as Hx; [done|]. cbn.
  assert (¬ (x < overflow_threshold)%Qc) as Hge.
  { intros Hlt. apply Hx. split; [|done].
    eapply Qclt_le_trans; [apply threshold_negative|done]. }
  unfold round. rewrite bool_decide_eq_false_2.
  - unfold negative. rewrite !bool_decide_eq_false_2; [done|..].
    + by apply Qcle_not_lt.
    + apply Qcle_not_lt. rewrite <- (Qcplus_0_l 0).
      by apply Qcplus_le_compat.
  - intros [_ Hlt]. apply Hge. eapply Qcle_lt_trans; [|done].
    rewrite <- (Qcplus_0_l x) at 1. by apply Qcplus_le_compat.
Qed.

Lemma of_nat_nonzero n q : of_nat n = Fin q → n ≠ 0%nat → q ≠ 0%Qc.
Proof.
  unfold of_nat, round. case_bool_decide; [|done].
  intros [= <-] Hn Hq. apply Hn.
  rewrite <- Z2Qc_inj_0 in Hq. apply Z2Qc_inj in Hq. lia.
Qed.

Lemma div_zero_of_nat n : n ≠ 0%nat → div zero (of_nat n) = zero.
Proof.
  intros Hn. destruct (of_nat n) as [q|s|] eqn:Hq.
  - cbn. rewrite bool_decide_eq_false_2 by (by eapply of_nat_nonzero).
    unfold Qcdiv. rewrite Qcmult_0_l. apply round_zero.
  - done.
  - unfold of_nat, round in Hq. by case_bool_decide.
Qed.

(** [p >= 0] is the negation of [p < 0], except that both are false of
    NaN. *)
Lemma geb_ltb a : geb a zero = negb (ltb a zero) ∨ a = NaN.
Proof.
  destruct a as [q|s|]; [left|by left|by right]. cbn.
  destruct (decide (0 ≤ q)%Qc) as [Hle|Hle].
  - rewrite bool_decide_eq_true_2 by done.
    rewrite bool_decide_eq_false_2; [done|]. by apply Qcle_not_lt.
  - rewrite bool_decide_eq_false_2 by done.
    rewrite bool_decide_eq_true_2; [done|]. by apply Qcnot_le_lt.
Qed.

End num_facts.

(** ** The losses *)

Section losses_properties.
Import losses.

(** Each loss treats the samples independently. *)
Lemma positive_only_mse_samples yt yp :
  positive_only_mse yt yp = zip_with positive_only_mse_sample yt yp.
Proof.
  unfold positive_only_mse, K_mean, elementwise, K_square, K_cast.
  revert yp. induction yt as [|t yt IH]; intros [|p yp]; try done.
  cbn. f_equal. apply IH.
Qed.

Lemma masked_mse_samples yt yp :
  masked_mse yt yp = zip_with masked_mse_sample yt yp.
Proof.
  unfold masked_mse, sum_squared_error, n_valid_per_sample, K_sum, K_switch,
    K_zeros, K_shape, K_cast, invert, is_nan, elementwise, K_square, zip_with3.
  revert yp. induction yt as [|t yt IH]; intros [|p yp]; try done.
  cbn. f_equal. apply IH.
Qed.

Lemma zip_with_samples (f g : list num → list num → num)
    (P : list num → Prop) yt yp :
  equal_shaped yt yp → Forall P yt →
  (∀ t p, length t = length p → P t → f t p = g t p) →
  zip_with f yt yp = zip_with g yt yp.
Proof.
  intros Hs Hp Hfg. induction Hs as [|t p yt yp Hl _ IH]; [done|].
  apply Forall_cons in Hp as [Ht Hp]. cbn. f_equal; auto.
Qed.

Lemma has_shape_equal_shaped d yt yp :
  has_shape d yt → has_shape d yp → length yt = length yp →
  equal_shaped yt yp.
Proof.
  intros Ht Hp Hl. apply Forall2_same_length_lookup_2; [done|].
  intros i t p Hti Hpi.
  by rewrite (Forall_lookup_1 _ _ _ _ Ht Hti), (Forall_lookup_1 _ _ _ _ Hp Hpi).
Qed.

(** *** Positive-only MSE on one sample *)

(** Multiplying by the cast mask zeroes the squared errors at negative
    predictions when they are rationals; a NaN or an infinity there
    survives the multiplication as NaN, hence the hypothesis. *)
Lemma masked_squares t p :
  Forall2 (λ a b, negative b → is_finite (squared_error a b)) t p →
  zip_with Num.mul (map Num.square (zip_with Num.sub p t))
    (map cast (map (λ p, Num.geb p Num.zero) p))
  = zip_with (λ t p, if Num.ltb p Num.zero then Num.zero
                     else squared_error t p) t p.
Proof.
  induction 1 as [|a b t p Hab _ IH]; [done|].
  cbn [zip_with map]. f_equal; [|apply IH].
  fold (squared_error a b). unfold negative in Hab.
  destruct (geb_ltb b) as [Hg| ->]; [|by destruct a].
  rewrite Hg. destruct (Num.ltb b Num.zero); cbn [negb cast].
  - destruct Hab as [q ->]; [done|]. apply mul_zero_r.
  - apply mul_one_r, mul_rounded.
Qed.

Lemma length_squares t p :
  length t = length p →
  length (zip_with Num.mul (map Num.square (zip_with Num.sub p t))
            (map cast (map (λ p, Num.geb p Num.zero) p))) = length t.
Proof.
  intros Hl. rewrite length_zip_with, !length_map, length_zip_with. lia.
Qed.

Lemma positive_only_mse_sample_spec t p :
  Forall2 (λ a b, negative b → is_finite (squared_error a b)) t p →
  positive_only_mse_sample t p = spec_positive_only_mse (length t) t p.
Proof.
  intros Htp. unfold positive_only_mse_sample, spec_positive_only_mse.
  rewrite length_squares by (by eapply Forall2_length).
  by rewrite masked_squares.
Qed.

Lemma sum_zeros_negative t p :
  Forall negative p →
  Num.sum (zip_with (λ t p, if Num.ltb p Num.zero then Num.zero
                            else squared_error t p) t p) = Num.zero.
Proof.
  intros Hp. revert t. induction Hp as [|b p Hb _ IH]; intros [|a t]; try done.
  cbn [zip_with]. rewrite Hb.
  change (Num.sum (Num.zero :: ?l)) with (Num.add Num.zero (Num.sum l)).
  rewrite IH. apply add_zero_l, round_zero.
Qed.

Lemma squares_not_negative t p :
  Forall not_negative p →
  zip_with (λ t p, if Num.ltb p Num.zero then Num.zero
                   else squared_error t p) t p
  = zip_with squared_error t p.
Proof.
  intros Hp. revert t. induction Hp as [|b p Hb _ IH]; intros [|a t]; try done.
  cbn [zip_with]. rewrite Hb. f_equal. apply IH.
Qed.

(** *** Masked MSE on one sample *)

Lemma n_valid_sample_count t p :
  length t = length p →
  n_valid_sample t = Num.of_nat (length (observed t p)).
Proof.
  unfold n_valid_sample, observed. revert p.
  induction t as [|a t IH]; intros [|b p] Hl; try done.
  - cbn. symmetry. apply of_nat_0.
  - injection Hl as Hl. cbn [map zip zip_with].
    change (Num.sum (?x :: ?l)) with (Num.add x (Num.sum l)).
    specialize (IH p Hl). destruct (Num.is_nan a) eqn:Ha.
    + rewrite filter_cons_False by (cbn; congruence). cbn [negb cast].
      rewrite <- IH. apply add_zero_l, sum_rounded.
    + rewrite filter_cons_True by done. cbn [length negb cast].
      rewrite of_nat_S. f_equal. apply IH.
Qed.

Lemma sum_squared_error_sample_spec t p :
  sum_squared_error_sample t p
  = Num.sum (map (λ tp, squared_error tp.1 tp.2) (observed t p)).
Proof.
  unfold sum_squared_error_sample, observed, zip_with3. revert p.
  induction t as [|a t IH]; intros [|b p]; try done.
  cbn [map zip_with length replicate zip].
  change (Num.sum (?x :: ?l)) with (Num.add x (Num.sum l)).
  specialize (IH p). destruct (Num.is_nan a) eqn:Ha.
  - rewrite filter_cons_False by (cbn; congruence). cbn [fst snd switch].
    rewrite add_zero_l by apply sum_rounded. apply IH.
  - rewrite filter_cons_True by done. cbn [map fst snd switch].
    change (Num.sum (?x :: ?l)) with (Num.add x (Num.sum l)).
    f_equal. apply IH.
Qed.

Lemma masked_mse_sample_spec t p :
  length t = length p → masked_mse_sample t p = spec_masked_mse t p.
Proof.
  intros Hl. unfold masked_mse_sample, spec_masked_mse.
  by rewrite sum_squared_error_sample_spec, (n_valid_sample_count t p).
Qed.

Lemma observed_all t p :
  length t = length p → Forall is_number t → observed t p = zip t p.
Proof.
  intros Hl Ht. unfold observed. revert p Hl.
  induction Ht as [|a t Ha _ IH]; intros [|b p] Hl; try done.
  injection Hl as Hl. cbn [zip zip_with]. rewrite filter_cons_True by done.
  f_equal. by apply IH.
Qed.

Lemma observed_none t p :
  Forall (λ a, a = NaN) t → observed t p = [].
Proof.
  intros Ht. unfold observed. revert p.
  induction Ht as [|a t -> _ IH]; intros [|b p]; try done.
  cbn [zip zip_with]. rewrite filter_cons_False by done. apply IH.
Qed.

Lemma observed_some t p :
  length t = length p → Exists is_number t → observed t p ≠ [].
Proof.
  intros Hl Ht. unfold observed. revert p Hl.
  induction Ht as [a t Ha|a t _ IH]; intros [|b p] Hl; try done;
    injection Hl as Hl; cbn [zip zip_with].
  - by rewrite filter_cons_True.
  - destruct (decide (Num.is_nan a = false)).
    + by rewrite filter_cons_True.
    + rewrite filter_cons_False by done. by apply IH.
Qed.

Lemma observed_nil_nan t :
  observed t t = [] → Forall (λ a, a = NaN) t.
Proof.
  unfold observed. induction t as [|a t IH]; [done|].
  cbn [zip zip_with]. destruct a as [x|s|].
  - by rewrite filter_cons_True.
  - by rewrite filter_cons_True.
  - rewrite filter_cons_False by done. intros Ht. constructor; auto.
Qed.

(** The quotient of [masked_mse] is never a non-zero number over zero, the
    case in which IEEE arithmetic gives an infinity: when the count of
    observed positions is zero, so is the sum. *)
Lemma zero_count_zero_sum t p :
  n_valid_sample t = Num.zero → sum_squared_error_sample t p = Num.zero.
Proof.
  intros Hn. rewrite (n_valid_sample_count t t) in Hn by done.
  assert (observed t t = []) as Hobs.
  { destruct (observed t t) as [|tp l] eqn:Hobs; [done|]. exfalso.
    by apply (of_nat_nonzero _ _ Hn). }
  rewrite sum_squared_error_sample_spec, observed_none; [done|].
  by apply observed_nil_nan.
Qed.

Lemma spec_masked_mse_plain t p :
  length t = length p → Forall is_number t →
  spec_masked_mse t p = plain_mse (length t) t p.
Proof.
  intros Hl Ht. unfold spec_masked_mse, plain_mse.
  rewrite observed_all by done. rewrite length_zip, <- Hl, Nat.min_id.
  do 2 f_equal. clear.
  revert p. induction t as [|a t IH]; intros [|b p]; try done.
  cbn. f_equal. apply IH.
Qed.

(** *** The claims about the losses *)

Lemma zip_with_rows (f g : list num → list num → num)
    (R : list num → list num → Prop) yt yp :
  Forall2 R yt yp → (∀ t p, R t p → f t p = g t p) →
  zip_with f yt yp = zip_with g yt yp.
Proof.
  intros Hr Hfg. induction Hr as [|t p yt yp Htp _ IH]; [done|].
  cbn. f_equal; auto.
Qed.

(** Where no infinity and no NaN meets the zero of the mask,
    [positive_only_mse] is the mean the specification describes. *)
Lemma positive_only_mse_rows d yt yp :
  has_shape d yt → finite_where_negative yt yp →
  positive_only_mse yt yp = zip_with (spec_positive_only_mse d) yt yp.
Proof.
  intros Ht Hfin. rewrite positive_only_mse_samples.
  apply (zip_with_rows _ _
           (λ t p, length t = d
                   ∧ Forall2 (λ a b, negative b
                                     → is_finite (squared_error a b)) t p)).
  - unfold finite_where_negative in Hfin. clear -Ht Hfin.
    induction Hfin as [|t p yt yp Htp _ IH]; [constructor|].
    apply Forall_cons in Ht as [Hd Ht]. constructor; [done|by apply IH].
  - intros t p [<- Htp]. by apply positive_only_mse_sample_spec.
Qed.

(** C1.  [positive_only_mse] masks by multiplying the squared errors with
    the mask cast to 0 and 1, and a product with 0 removes neither an
    infinity nor a NaN.  The one prediction of the sample below, -1e20, is
    negative and its squared error overflows: the loss is NaN where the
    specification says 0.  In the second sample a NaN ground truth sits
    under a negative prediction: the loss is NaN where the mean of the
    specification, with that entry replaced by zero, is a number. *)
Theorem positive_only_mse_masked_overflow :
  Forall negative [Fin (Qc_of_Z (- 10 ^ 20))]
  ∧ positive_only_mse [[Fin 0%Qc]] [[Fin (Qc_of_Z (- 10 ^ 20))]] = [NaN]
  ∧ zip_with (spec_positive_only_mse 1)
      [[Fin 0%Qc]] [[Fin (Qc_of_Z (- 10 ^ 20))]] = [Num.zero]
  ∧ positive_only_mse [[NaN; Fin 1%Qc]]
      [[Fin (Qc_of_Z (-1)); Fin (Qc_of_Z 2)]] = [NaN]
  ∧ (∃ q, zip_with (spec_positive_only_mse 2) [[NaN; Fin 1%Qc]]
            [[Fin (Qc_of_Z (-1)); Fin (Qc_of_Z 2)]] = [Fin q]).
Proof.
  split; [by repeat constructor|]. split; [by vm_compute|].
  split; [by vm_compute|]. split; [by vm_compute|].
  eexists. by vm_compute.
Qed.

(** C2.  For equal-shaped arrays in which every sample has an observed
    (non-NaN) ground-truth entry, [masked_mse] is, sample by sample, the sum
    of the squared errors at the observed positions divided by the number
    of observed positions, which is not zero; when the ground truth holds no
    NaN at all this is the plain mean squared error over the feature
    axis. *)
Theorem masked_mse_mean_over_observed (y_true y_pred : tensor) :
  equal_shaped y_true y_pred →
  Forall (Exists is_number) y_true →
  masked_mse y_true y_pred = zip_with spec_masked_mse y_true y_pred
  ∧ (∀ i t p, y_true !! i = Some t → y_pred !! i = Some p →
       length (observed t p) ≠ 0%nat)
  ∧ (numeric y_true →
     masked_mse y_true y_pred
     = zip_with (λ t p, plain_mse (length t) t p) y_true y_pred).
Proof.
  intros Hs Hobs. rewrite masked_mse_samples. split; [|split].
  - apply (zip_with_samples _ _ (λ _, True)); [done|by apply Forall_true|].
    intros t p Hl _. by apply masked_mse_sample_spec.
  - intros i t p Hti Hpi Hlen. apply length_zero_iff_nil in Hlen.
    revert Hlen. apply observed_some.
    + exact (Forall2_lookup_lr _ _ _ _ _ _ Hs Hti Hpi).
    + exact (Forall_lookup_1 _ _ _ _ Hobs Hti).
  - intros Hn. apply (zip_with_samples _ _ (Forall is_number)); [done..|].
    intros t p Hl Ht. rewrite masked_mse_sample_spec by done.
    by apply spec_masked_mse_plain.
Qed.

Lemma masked_mse_mean_over_observed_witness :
  masked_mse examples.y_sparse examples.y_pred
  = zip_with spec_masked_mse examples.y_sparse examples.y_pred.
Proof.
  apply (masked_mse_mean_over_observed examples.y_sparse examples.y_pred).
  - by repeat constructor.
  - constructor; [apply Exists_cons_tl, Exists_cons_hd; reflexivity|].
    constructor; [apply Exists_cons_hd; reflexivity|constructor].
Defined.

(** C7.  [masked_mse] divides the sum of squared errors of a sample by its
    count of observed positions without a guard.  For a sample whose ground
    truth is NaN throughout, the count is zero, the sum is zero and the
    result is NaN; for a sample with at least one observed position the
    count is a positive number, so the division by zero cannot occur. *)
Theorem masked_mse_zero_observed (y_true y_pred : tensor) (i : nat)
    (t p : list num) :
  equal_shaped y_true y_pred →
  y_true !! i = Some t → y_pred !! i = Some p →
  masked_mse y_true y_pred !! i
  = Some (Num.div (sum_squared_error_sample t p) (n_valid_sample t))
  ∧ (Forall (λ a, a = NaN) t →
     n_valid_sample t = Num.zero
     ∧ sum_squared_error_sample t p = Num.zero
     ∧ masked_mse y_true y_pred !! i = Some NaN)
  ∧ (Exists is_number t →
     ∃ k, k ≠ 0%nat ∧ n_valid_sample t = Num.of_nat k
          ∧ n_valid_sample t ≠ Num.zero).
Proof.
  intros Hs Hti Hpi.
  assert (length t = length p) as Hl
    by exact (Forall2_lookup_lr _ _ _ _ _ _ Hs Hti Hpi).
  assert (masked_mse y_true y_pred !! i
          = Some (Num.div (sum_squared_error_sample t p) (n_valid_sample t)))
    as Hdiv.
  { by rewrite masked_mse_samples, lookup_zip_with, Hti, Hpi. }
  split; [done|]. split.
  - intros Hnan. pose proof (observed_none t p Hnan) as Hobs.
    assert (n_valid_sample t = Num.zero) as Hn.
    { by rewrite (n_valid_sample_count t p), Hobs, <- of_nat_0. }
    assert (sum_squared_error_sample t p = Num.zero) as Hsum.
    { by rewrite sum_squared_error_sample_spec, Hobs. }
    by rewrite Hdiv, Hn, Hsum.
  - intros Hobs. exists (length (observed t p)).
    assert (length (observed t p) ≠ 0%nat) as Hk.
    { intros Hk. apply length_zero_iff_nil in Hk. revert Hk.
      by apply observed_some. }
    rewrite (n_valid_sample_count t p) by done. split; [done|split; [done|]].
    intros Hz. by apply (of_nat_nonzero _ _ Hz Hk).
Qed.

Lemma masked_mse_zero_observed_witness :
  masked_mse examples.y_unobserved examples.y_pred !! 0%nat = Some NaN.
Proof.
  destruct (masked_mse_zero_observed examples.y_unobserved examples.y_pred 0
              [NaN; NaN] [Fin (Qc_of_Z (-1)); Fin (Qc_of_Z 3)])
    as (_ & Hall & _).
  - by repeat constructor.
  - reflexivity.
  - reflexivity.
  - apply Hall. by repeat constructor.
Defined.

End losses_properties.

(** ** The output descriptor *)

Section output_properties.
Import Py.

Lemma append_empty_r (s : string) : (s +:+ "")%string = s.
Proof.
  induction s as [|c s IH]; [done|].
  change (String c (s +:+ "") = String c s). by rewrite IH.
Qed.

(** C6.  Reading [loss_fn] gives [positive_only_mse] when [mask_negative]
    is set and the loss is "mse"; raises a [ValueError] that names the loss
    when [mask_negative] is set and the loss is anything else; and asks the
    framework's registry for the named loss when [mask_negative] is not
    set. *)
Theorem loss_fn_selection (deserialize : string → result output.loss_function)
    (self : output.Output) :
  (output.mask_negative self = true → output.loss self = "mse" →
   output.loss_fn deserialize self = Ok losses.positive_only_mse)
  ∧ (output.mask_negative self = true → output.loss self ≠ "mse" →
     ∃ e, output.loss_fn deserialize self = Raise e
          ∧ e = ValueError "No masked loss available for '%s'"
                  [VStr (output.loss self)]
          ∧ message e
            = Some ("No masked loss available for '"
                    +:+ output.loss self +:+ "'")%string)
  ∧ (output.mask_negative self = false →
     output.loss_fn deserialize self = deserialize (output.loss self)).
Proof.
  unfold output.loss_fn. split; [|split].
  - by intros -> ->.
  - intros -> Hloss. apply String.eqb_neq in Hloss. rewrite Hloss.
    eexists. split; [done|]. split; [done|]. reflexivity.
  - by intros ->.
Qed.

Lemma loss_fn_selection_witness :
  ∃ e, output.loss_fn (λ _, Raise TypeError)
         (examples.masked_output "binary_crossentropy") = Raise e
       ∧ e = ValueError "No masked loss available for '%s'"
               [VStr "binary_crossentropy"]
       ∧ message e
         = Some "No masked loss available for 'binary_crossentropy'".
Proof.
  apply (loss_fn_selection (λ _, Raise TypeError)
           (examples.masked_output "binary_crossentropy")).
  - reflexivity.
  - discriminate.
Defined.

End output_properties.

(** ** The constructor of the sequence-input descriptor *)

Section constructor_properties.
Import Py nn_helpers sequence_input examples.

(** C9.  An encoding outside the four allowed values makes the constructor
    raise [ValueError].  The statement holds for every encoder, also for one
    whose own constructor would raise: the encoding is checked before the
    encoder is made and before anything is derived from it. *)
Theorem invalid_encoding_rejected `{EncoderAPI} (a : InitArgs SequenceInput) :
  encoding a ∉ allowed_encodings →
  __init__ a = Raise (ValueError "Invalid encoding: %s" [VStr (encoding a)])
  ∧ message (ValueError "Invalid encoding: %s" [VStr (encoding a)])
    = Some ("Invalid encoding: " +:+ encoding a)%string.
Proof.
  intros Hnot. unfold __init__.
  rewrite bool_decide_eq_false_2 by done. cbn. split; [done|].
  by rewrite append_empty_r.
Qed.

Lemma invalid_encoding_rejected_witness :
  @__init__ rejecting_encoder (with_encoding "xyz" (defaults 9))
  = Raise (ValueError "Invalid encoding: %s" [VStr "xyz"]).
Proof.
  apply (@invalid_encoding_rejected rejecting_encoder
           (with_encoding "xyz" (defaults 9))).
  cbn. unfold allowed_encodings. rewrite !elem_of_cons, elem_of_nil.
  intros [?|[?|[?|[?|[]]]]]; discriminate.
Defined.

(** C10.  A constructed descriptor keeps the [variable_length] flag it was
    given; its [mask_zero] is that flag when the argument was left as
    [None], and the given boolean otherwise. *)
Theorem mask_zero_follows_variable_length `{EncoderAPI}
    (a : InitArgs SequenceInput) (self : SequenceInput) :
  __init__ a = Ok self →
  variable_length self = variable_length a
  ∧ (mask_zero a = None → mask_zero self = Some (variable_length self))
  ∧ (∀ b, mask_zero a = Some b → mask_zero self = Some b).
Proof.
  unfold __init__. destruct (negb _); [done|].
  destruct new_Encoder as [enc|]; [|done]. cbn.
  destruct (if String.eqb (encoding a) "embedding" then _ else _); [|done].
  cbn. intros [= <-]. cbn. split; [done|]. split.
  - by intros ->.
  - by intros b ->.
Qed.

Lemma mask_zero_follows_variable_length_witness :
  ∃ self, __init__ (with_variable_length true (defaults 9)) = Ok self
          ∧ mask_zero self = Some true.
Proof.
  eexists. split; [reflexivity|].
  exact (proj1 (proj2 (mask_zero_follows_variable_length
                         (with_variable_length true (defaults 9)) _ eq_refl))
           eq_refl).
Defined.

(** C3.  With the encoding "embedding" the constructor raises whatever the
    augmentation flags are: [extra_input_dims] is a sum of two integers and
    the assertion asks for it to be [None].  When the encoder can be made the
    exception is the [AssertionError]. *)
Theorem embedding_never_constructed `{EncoderAPI}
    (a : InitArgs SequenceInput) :
  encoding a = "embedding" →
  ∃ e, __init__ a = Raise e
       ∧ ∀ enc, new_Encoder (variable_length a) (add_start_tokens a)
                  (add_stop_tokens a) (add_normalized_position a)
                  (add_normalized_centrality a) = Ok enc →
                e = AssertionError.
Proof.
  intros He. unfold __init__. rewrite He. cbn.
  destruct new_Encoder as [enc|e]; cbn; by eexists.
Qed.

Lemma embedding_never_constructed_witness :
  __init__ (with_encoding "embedding" (defaults 9)) = Raise AssertionError.
Proof.
  destruct (embedding_never_constructed
              (with_encoding "embedding" (defaults 9)))
    as (e & Hinit & He); [reflexivity|].
  rewrite Hinit. f_equal. by eapply He.
Defined.

End constructor_properties.

(** ** Building the convolution stack *)

Section build_properties.
Import Py nn_helpers sequence_input examples.

(** *** What [build] does not touch *)

Section frame.
Context `{EncoderAPI}.

Lemma preserves_ret {A} (a : A) h : preserves (mret a) h.
Proof. done. Qed.

Lemma preserves_raise {A} e h : preserves (raise e : M A) h.
Proof. done. Qed.

Lemma preserves_lift {A} (r : result A) h : preserves (lift r) h.
Proof. done. Qed.

Lemma preserves_read l h : preserves (read l) h.
Proof. unfold preserves, read. by destruct (h !! l). Qed.

Lemma preserves_bind {A B} (m : M A) (f : A → M B) h :
  preserves m h → (∀ a, preserves (f a) h) → preserves (m ≫= f) h.
Proof.
  unfold preserves, mbind, M_bind. intros Hm Hf.
  destruct (m h) as [[a|e] h'] eqn:Hmh; cbn in Hm; subst h'; [apply Hf|done].
Qed.

Lemma preserves_pop l k v h :
  (∀ d, h !! l = Some d → dict_get k d = None) → preserves (pop l k v) h.
Proof.
  intros Hk. unfold preserves, pop, mbind, M_bind, read.
  destruct (h !! l) as [d|] eqn:Hl; [|done]. by rewrite (Hk d).
Qed.

Lemma preserves_truthy v h : preserves (truthy v) h.
Proof.
  destruct v; try done. cbn.
  apply preserves_bind; [apply preserves_read|done].
Qed.

Lemma preserves_len v h : preserves (len v) h.
Proof.
  destruct v; try done. cbn.
  apply preserves_bind; [apply preserves_read|done].
Qed.

Lemma preserves_iter v h : preserves (iter v) h.
Proof.
  destruct v; try done. cbn.
  apply preserves_bind; [apply preserves_read|done].
Qed.

Lemma preserves_for_each {A S} (xs : list A) (body : A → S → M S) s h :
  (∀ x s, preserves (body x s) h) → preserves (for_each xs body s) h.
Proof.
  intros Hbody. revert s. induction xs as [|x xs IH]; intros s; [done|].
  cbn. apply preserves_bind; [apply Hbody|apply IH].
Qed.

Lemma preserves_conv_layer (self : SequenceInput) ws n v carried h :
  Forall no_overrides h → preserves (conv_layer self ws n v carried) h.
Proof.
  intros Hh. destruct carried as [value idx].
  destruct v as [| | | | | |l]; try done. unfold conv_layer.
  assert (∀ k, k ∈ override_keys →
               ∀ d, h !! l = Some d → dict_get k d = None) as Hk.
  { intros k Hin d Hl. pose proof (Forall_lookup_1 _ _ _ _ Hh Hl) as Hd.
    unfold no_overrides in Hd. rewrite Forall_forall in Hd. by apply Hd. }
  repeat (apply preserves_bind;
          [first [ apply preserves_pop, Hk; unfold override_keys;
                   rewrite !elem_of_cons; auto 10
                 | apply preserves_lift | apply preserves_read ]
          | intros ? ]).
  case_bool_decide; [done|]. by destruct (_ && _).
Qed.

Lemma preserves_build_conv build_source (self : SequenceInput) value h :
  (∀ source, conv_weight_source self = Some (inr source) →
             preserves (build_source source) h) →
  Forall no_overrides h →
  preserves (_build_conv build_source self value) h.
Proof.
  intros Hsrc Hh. unfold _build_conv.
  apply preserves_bind; [apply preserves_truthy|]. intros [|]; [|done].
  apply preserves_bind.
  { destruct (conv_weight_source self) as [[t|source]|] eqn:Hws; try done.
    apply preserves_bind; [by apply Hsrc|done]. }
  intros ws. apply preserves_bind; [apply preserves_len|]. intros n.
  apply preserves_bind; [|done].
  apply preserves_for_each. intros _ carried.
  apply preserves_bind; [apply preserves_iter|]. intros layers.
  apply preserves_for_each. intros v c. by apply preserves_conv_layer.
Qed.

(** Without override keys in the store, and without a descriptor as the
    source of the convolution weights, [build] leaves the store as it
    is. *)
Lemma preserves_build (self : SequenceInput) h :
  (∀ source, conv_weight_source self ≠ Some (inr source)) →
  Forall no_overrides h →
  preserves (build self) h.
Proof.
  intros Hws Hh. destruct self as [a pl enc ns ex nd]. cbn [build].
  apply preserves_bind; [apply preserves_lift|]. intros value.
  apply preserves_bind; [|done].
  apply preserves_build_conv; [|done]. intros source Hsrc.
  by destruct (Hws source).
Qed.

End frame.

(** C4.  [build] takes the override keys out of the layer records it reads
    them from.  For the descriptor of [quiet_args], whose first layer record
    switches pooling off, the records differ after the first [build], and a
    second [build] makes a different stack: it finds no override and pools
    with the defaults of the stack. *)
Theorem build_changes_layer_records :
  ∃ self first h1 second h2,
    __init__ quiet_args = Ok self
    ∧ build self quiet_heap = (Ok first, h1)
    ∧ build self h1 = (Ok second, h2)
    ∧ layer_records quiet_heap (conv_filter_sizes self)
      = Some [[(KInt 3, VInt 16); (KStr "pool_size", VInt 1);
               (KStr "pool_stride", VInt 1)];
              [(KInt 5, VInt 8)]]
    ∧ layer_records h1 (conv_filter_sizes self)
      = Some [[(KInt 3, VInt 16)]; [(KInt 5, VInt 8)]]
    ∧ first ≠ second.
Proof.
  do 5 eexists. split; [reflexivity|]. split; [reflexivity|].
  split; [reflexivity|]. split; [reflexivity|]. split; [reflexivity|].
  intros Heq. discriminate Heq.
Qed.

(** *** The stack built when no record is skipped *)

Section stack.
Context `{EncoderAPI}.
Variable self : SequenceInput.
Variable ws : option tensor.
Variable n : Z.
Hypothesis maxpooling :
  (1 <? pool_size self) || (1 <? pool_stride self) = true.

Lemma pop_absent l k v d h :
  h !! l = Some d → dict_get k d = None → pop l k v h = (Ok v, h).
Proof.
  intros Hl Hk. unfold pop, mbind, M_bind, read. by rewrite Hl, Hk.
Qed.

Lemma conv_layer_applied l d value idx h :
  h !! l = Some d → no_overrides d → d ≠ [] →
  conv_layer self ws n (VDict l) (value, idx) h
  = (Ok (indexed_stack self ws n [d] (value, idx)), h).
Proof.
  intros Hl Hd Hne. unfold no_overrides, override_keys in Hd.
  repeat (apply Forall_cons in Hd as [? Hd]).
  unfold conv_layer.
  do 5 (unfold mbind at 1, M_bind at 1; erewrite pop_absent by done).
  unfold mbind at 1, M_bind at 1, lift. cbn [gt1 mbind result_bind].
  destruct (1 <? pool_size self) eqn:Hps; cbn in maxpooling |- *.
  - unfold mbind at 1, M_bind at 1, read. rewrite Hl.
    rewrite bool_decide_eq_false_2 by (by destruct d).
    cbn. by destruct (idx + 1 <? n).
  - rewrite maxpooling. unfold mbind at 1, M_bind at 1, read. rewrite Hl.
    rewrite bool_decide_eq_false_2 by (by destruct d).
    cbn. by destruct (idx + 1 <? n).
Qed.

Lemma indexed_stack_app ds1 ds2 carried :
  indexed_stack self ws n (ds1 ++ ds2) carried
  = indexed_stack self ws n ds2 (indexed_stack self ws n ds1 carried).
Proof.
  revert carried. induction ds1 as [|d ds1 IH]; intros carried; [done|].
  cbn. apply IH.
Qed.

Lemma inner_loop locs ds carried h :
  Forall2 (λ l d, h !! l = Some d ∧ no_overrides d ∧ d ≠ []) locs ds →
  for_each (VDict <$> locs) (conv_layer self ws n) carried h
  = (Ok (indexed_stack self ws n ds carried), h).
Proof.
  intros Hlocs. revert carried.
  induction Hlocs as [|l d locs ds (Hl & Hd & Hne) _ IH]; intros [value idx];
    [done|].
  cbn [fmap list_fmap for_each]. bind_step.
  rewrite (conv_layer_applied l d) by done. by rewrite IH.
Qed.

Lemma outer_loop {A} (xs : list A) locs ds carried h :
  Forall2 (λ l d, h !! l = Some d ∧ no_overrides d ∧ d ≠ []) locs ds →
  for_each xs
    (λ _ carried,
       layers ← iter (VList (VDict <$> locs));
       for_each layers (conv_layer self ws n) carried)
    carried h
  = (Ok (indexed_stack self ws n
           (concat (replicate (Datatypes.length xs) ds)) carried), h).
Proof.
  intros Hlocs. revert carried. induction xs as [|x xs IH]; intros carried;
    [done|].
  cbn [for_each Datatypes.length replicate concat].
  bind_step. cbn [iter].
  unfold mbind at 1, M_bind at 1, mret at 1, M_ret at 1.
  rewrite (inner_loop locs ds) by done. by rewrite IH, indexed_stack_app.
Qed.

Lemma indexed_stack_pooled ds carried :
  carried.2 + Z.of_nat (Datatypes.length ds) = n →
  (indexed_stack self ws n ds carried).1 = pooled_stack self ws carried.1 ds.
Proof.
  revert carried. induction ds as [|d ds IH]; intros [value idx] Hn; [done|].
  cbn [indexed_stack pooled_stack fst snd] in *.
  destruct ds as [|d' ds].
  - cbn in Hn |- *. by rewrite (proj2 (Z.ltb_ge _ _)) by lia.
  - rewrite (proj2 (Z.ltb_lt _ _)) by (cbn [Datatypes.length] in Hn; lia).
    rewrite IH; [done|]. cbn [Datatypes.length fst snd] in *. lia.
Qed.

End stack.

Section conv_stack.
Context `{EncoderAPI}.

Lemma length_concat_replicate {A} (k : nat) (l : list A) :
  Datatypes.length (concat (replicate k l)) = (k * Datatypes.length l)%nat.
Proof.
  induction k as [|k IH]; [done|]. cbn. rewrite length_app, IH. lia.
Qed.

Lemma length_range (r : Z) : Datatypes.length (range r) = Z.to_nat r.
Proof. unfold range. by rewrite length_fmap, length_seq. Qed.

(** X17.  When no layer record is skipped and none carries an override,
    [_build_conv] builds what the specification describes, for every number
    of repetitions: pooling follows every convolution except the last. *)
Lemma pooling_between_layers (self : SequenceInput)
    (build_source : SequenceInput → M (tensor * tensor)) (value : tensor)
    (h : heap) (locs : list loc) (ds : list dict) :
  conv_filter_sizes self = VList (VDict <$> locs) →
  Forall2 (λ l d, h !! l = Some d ∧ no_overrides d ∧ d ≠ []) locs ds →
  (∀ source, conv_weight_source self ≠ Some (inr source)) →
  (1 <? pool_size self) || (1 <? pool_stride self) = true →
  _build_conv build_source self value h
  = (Ok (pooled_stack self (given_weight_source self) value
           (concat (replicate (Z.to_nat (repeat_conv_layers self)) ds))),
     h).
Proof.
  intros Hcfs Hlocs Hws Hpool. unfold _build_conv. rewrite Hcfs.
  cbn [truthy isinstance_dict].
  unfold mbind at 1, M_bind at 1, mret at 1, M_ret at 1.
  destruct locs as [|l locs].
  { apply Forall2_nil_inv_l in Hlocs as ->. cbn.
    replace (concat (replicate _ [])) with (@nil dict); [done|].
    induction (Z.to_nat _); [done|]. by cbn. }
  rewrite bool_decide_eq_false_2 by done. cbn [negb].
  bind_step.
  assert (match conv_weight_source self with
          | Some (inl t) => mret (Some t)
          | Some (inr source) =>
              built ← build_source source; mret (Some built.2)
          | None => mret None
          end h = (Ok (given_weight_source self), h)) as ->.
  { unfold given_weight_source.
    destruct (conv_weight_source self) as [[t|source]|] eqn:Hsrc; try done.
    by destruct (Hws source). }
  cbn [len]. unfold mbind at 1, M_bind at 1, mret at 1, M_ret at 1.
  bind_step.
  set (n := repeat_conv_layers self * _).
  rewrite (outer_loop self (given_weight_source self) n Hpool
             (range (repeat_conv_layers self)) (l :: locs) ds) by done.
  unfold mret, M_ret. do 2 f_equal. rewrite length_range.
  destruct (decide (repeat_conv_layers self ≤ 0)) as [Hle|Hgt].
  - by rewrite Z2Nat.nonpos.
  - apply indexed_stack_pooled. cbn [snd]. unfold n.
    rewrite length_concat_replicate, length_fmap.
    rewrite <- (Forall2_length _ _ _ Hlocs). lia.
Qed.

End conv_stack.

Lemma pooling_between_layers_witness :
  ∃ self,
    __init__ two_layer_args = Ok self
    ∧ _build_conv build self (_build_input self) two_layer_heap
      = (Ok (pooled_stack self (given_weight_source self) (_build_input self)
               (concat (replicate (Z.to_nat (repeat_conv_layers self))
                          two_layer_heap))),
         two_layer_heap).
Proof.
  eexists. split; [reflexivity|].
  apply (pooling_between_layers _ build _ two_layer_heap [0%nat; 1%nat]
           two_layer_heap).
  - reflexivity.
  - constructor; [|constructor; [|constructor]].
    + split; [reflexivity|]. split; [by repeat constructor|discriminate].
    + split; [reflexivity|]. split; [by repeat constructor|discriminate].
  - intros source. discriminate.
  - reflexivity.
Defined.

(** Within one [build] already, the override of a layer record reaches only
    the first repetition of the layer: the second is built with the
    activation of the stack. *)
Lemma repeated_layer_loses_override :
  ∃ self,
    __init__ repeated_args = Ok self
    ∧ _build_conv build self (_build_input self) repeated_heap
      = (Ok (aligned_convolutions
               (local_max_pooling
                  (aligned_convolutions (_build_input self) [KInt 3]
                     [(KInt 3, VInt 16)] (VFloat 0%Qc) (VBool false)
                     (VStr "relu") None)
                  (VInt 3) (VInt 2))
               [KInt 3] [(KInt 3, VInt 16)] (VFloat 0%Qc) (VBool false)
               (VStr "linear") None),
         [[(KInt 3, VInt 16)]]).
Proof.
  eexists. split; [reflexivity|]. vm_compute. reflexivity.
Qed.

(** C5.  When a layer record is skipped, [n_conv_layers] still counts it,
    so the index of the last layer that is applied stays below it: for the
    descriptor of [skipped_args] the one convolution that is applied, which
    is the last, is followed by max-pooling. *)
Theorem pooling_follows_last_applied_layer :
  ∃ self,
    __init__ skipped_args = Ok self
    ∧ _build_conv build self (_build_input self) skipped_heap
      = (Ok (local_max_pooling
               (aligned_convolutions (_build_input self) [KInt 3]
                  [(KInt 3, VInt 16)] (VFloat 0%Qc) (VBool false)
                  (VStr "linear") None)
               (VInt 3) (VInt 2)),
         [[(KInt 3, VInt 16)]; []]).
Proof.
  eexists. split; [reflexivity|]. vm_compute. reflexivity.
Qed.

End build_properties.

(** ** Serialising and reconstructing *)

Section decimal.
Import Py.

(** The characters [str(int)] writes for a digit sequence. *)
Lemma parse_digits_string_of_uint (u : uint) :
  u ≠ Nil →
  parse_digits (list_ascii_of_string (NilEmpty.string_of_uint u)) = Some u.
Proof.
  induction u as [|u IH|u IH|u IH|u IH|u IH|u IH|u IH|u IH|u IH|u IH];
    intros Hu; [done|..].
  all: destruct u; [done|..].
  all: specialize (IH ltac:(discriminate)).
  all: cbn in IH |- *; by rewrite IH.
Qed.

Lemma string_of_uint_nonnil (u : uint) :
  u ≠ Nil → NilZero.string_of_uint u = NilEmpty.string_of_uint u.
Proof. by destruct u. Qed.

(** A string that starts with a digit has no sign and no leading space. *)
Lemma split_sign_unsigned (cs : list ascii) (u : uint) :
  parse_digits cs = Some u → split_sign (lstrip cs) = (false, cs).
Proof.
  destruct cs as [|c r]; [done|].
  destruct c as [[] [] [] [] [] [] [] []]; done.
Qed.

Lemma int_of_str_of_int (z : Z) : int_of_str (str_of_int z) = Some z.
Proof.
  unfold int_of_str, str_of_int. destruct z as [|p|p]; [done|..].
  all: pose proof (parse_digits_string_of_uint _ (Unsigned.to_uint_nonnil p))
      as Hparse.
  all: cbn [Z.to_int NilZero.string_of_int].
  all: rewrite string_of_uint_nonnil by apply Unsigned.to_uint_nonnil.
  - rewrite (split_sign_unsigned _ _ Hparse). cbv beta iota.
    rewrite Hparse. cbn.
    f_equal. apply (of_to (Z.pos p)).
  - change (split_sign (lstrip (list_ascii_of_string (String "-" ?s))))
      with (true, list_ascii_of_string s).
    cbv beta iota. rewrite Hparse. cbn. f_equal. apply (of_to (Z.neg p)).
Qed.

Lemma str_of_int_inj (a b : Z) : str_of_int a = str_of_int b → a = b.
Proof.
  intros Hab. apply (f_equal int_of_str) in Hab.
  rewrite !int_of_str_of_int in Hab. by injection Hab.
Qed.

End decimal.

Section roundtrip_properties.
Import Py nn_helpers sequence_input examples.

(** *** Dictionaries *)

Lemma dict_set_fresh (k : key) (v : pyval) (d : dict) :
  k ∉ d.*1 → dict_set k v d = d ++ [(k, v)].
Proof.
  induction d as [|[k' v'] d IH]; [done|]. cbn. intros Hk.
  apply not_elem_of_cons in Hk as [Hne Hk].
  rewrite decide_False by done. f_equal. by apply IH.
Qed.

Lemma json_dict_fresh (acc d : dict) :
  NoDup (acc.*1 ++ (json_key <$> d.*1)) →
  foldl (λ acc (kv : key * pyval), dict_set (json_key kv.1) kv.2 acc) acc d
  = acc ++ (json_entry <$> d).
Proof.
  revert acc. induction d as [|[k v] d IH]; intros acc Hnd.
  - by rewrite app_nil_r.
  - cbn [foldl fst snd]. cbn in Hnd.
    rewrite dict_set_fresh.
    + rewrite IH.
      * by rewrite <- app_assoc.
      * by rewrite fmap_app, <- app_assoc.
    + apply NoDup_app in Hnd as (_ & Hdisj & _). intros Hin.
      apply (Hdisj _ Hin). apply elem_of_cons. by left.
Qed.

Lemma integer_keys_distinct (d : dict) :
  integer_record d → NoDup (json_key <$> d.*1).
Proof.
  intros [Hint Hnd]. apply NoDup_fmap_2_strong; [|done].
  intros k1 k2 Hk1 Hk2 Heq.
  assert (∀ k, k ∈ d.*1 → ∃ z, k = KInt z) as Hkeys.
  { intros k Hk. apply list_elem_of_fmap in Hk as ([k' v'] & -> & Hkv).
    rewrite Forall_forall in Hint. destruct (Hint _ Hkv) as (z & v & [= -> ->]).
    by exists z. }
  destruct (Hkeys _ Hk1) as [z1 ->], (Hkeys _ Hk2) as [z2 ->].
  cbn in Heq. injection Heq as Heq. f_equal. by apply str_of_int_inj.
Qed.

Lemma json_dict_integer_record (d : dict) :
  integer_record d → json_dict d = json_entry <$> d.
Proof.
  intros Hd. unfold json_dict. rewrite json_dict_fresh; [done|].
  cbn. by apply integer_keys_distinct.
Qed.

Lemma integer_keys_json (d acc : dict) :
  Forall (λ kv : key * pyval, ∃ k v, kv = (KInt k, VInt v)) d →
  NoDup (acc.*1 ++ d.*1) →
  integer_keys (json_entry <$> d) acc = Ok (acc ++ d).
Proof.
  intros Hint. revert acc.
  induction Hint as [|kv d (k & v & ->) _ IH]; intros acc Hnd.
  - by rewrite app_nil_r.
  - cbn [fmap list_fmap json_entry json_key fst snd integer_keys int_of_key
         key_value int].
    rewrite int_of_str_of_int. cbn.
    cbn in Hnd. rewrite dict_set_fresh.
    + rewrite IH.
      * by rewrite <- app_assoc.
      * by rewrite fmap_app, <- app_assoc.
    + apply NoDup_app in Hnd as (_ & Hdisj & _). intros Hin.
      apply (Hdisj _ Hin). apply elem_of_cons. by left.
Qed.

Lemma integer_keys_json_dict (d : dict) :
  integer_record d → integer_keys (json_dict d) [] = Ok d.
Proof.
  intros Hd. rewrite json_dict_integer_record by done.
  destruct Hd as [Hint Hnd]. by rewrite integer_keys_json.
Qed.

(** *** Copying layer records into new dictionaries *)

Section copy.
Context `{EncoderAPI}.

Lemma map_M_copies step P g (locs : list loc) (ds : list dict)
    (h ext : heap) :
  copies step P g →
  Forall2 (λ l d, h !! l = Some d ∧ P d) locs ds →
  map_M step (VDict <$> locs) (h ++ ext)
  = (Ok (VDict <$> seq (Datatypes.length (h ++ ext)) (Datatypes.length ds)),
     (h ++ ext) ++ (g <$> ds)).
Proof.
  intros Hstep Hlocs. revert ext.
  induction Hlocs as [|l d locs ds [Hl Hd] _ IH]; intros ext.
  - cbn. by rewrite app_nil_r.
  - cbn [fmap list_fmap map_M]. bind_step.
    rewrite (Hstep l d (h ++ ext)); [|done|by apply lookup_app_l_Some].
    bind_step.
    rewrite <- (app_assoc h ext), IH.
    cbn [Datatypes.length seq fmap list_fmap]. unfold mret, M_ret. f_equal.
    + rewrite !length_app. cbn [Datatypes.length].
      by replace (Datatypes.length h + (Datatypes.length ext + 1))%nat
        with (S (Datatypes.length h + Datatypes.length ext)) by lia.
    + by rewrite <- !app_assoc.
Qed.

Lemma json_layer_copies : copies json_layer (λ _, True) json_dict.
Proof.
  intros l d h _ Hl. unfold json_layer, mbind, M_bind, read, alloc.
  by rewrite Hl.
Qed.

Lemma from_dict_layer_copies :
  copies from_dict_layer (λ d, ∃ d', integer_keys d [] = Ok d')
    integer_keys_of.
Proof.
  intros l d h [d' Hd] Hl.
  unfold from_dict_layer, items, mbind, M_bind, read, alloc, lift,
    integer_keys_of.
  by rewrite Hl, Hd.
Qed.

Lemma layer_records_new (h : heap) (ds : list dict) :
  layer_records (h ++ ds)
    (VList (VDict <$> seq (Datatypes.length h) (Datatypes.length ds)))
  = Some ds.
Proof.
  unfold layer_records. apply mapM_Some. revert h.
  induction ds as [|d ds IH]; intros h; [constructor|].
  cbn [Datatypes.length seq fmap list_fmap]. constructor.
  - by rewrite list_lookup_middle.
  - specialize (IH (h ++ [d])). rewrite <- app_assoc, length_app in IH.
    cbn in IH. by rewrite Nat.add_1_r in IH.
Qed.

Lemma layer_records_locs (h : heap) (v : pyval) (ds : list dict) :
  layer_records h v = Some ds →
  ∃ locs, v = VList (VDict <$> locs)
          ∧ Forall2 (λ l d, h !! l = Some d) locs ds.
Proof.
  destruct v as [| | | | |vs|]; try done. cbn. intros Hvs.
  apply mapM_Some in Hvs.
  induction Hvs as [|v d vs ds Hv _ (locs & [= ->] & IH)].
  - by exists [].
  - destruct v as [| | | | | |l]; try done.
    by exists (l :: locs); split; [|constructor].
Qed.

End copy.

Section roundtrip.
Context `{EncoderAPI}.

Lemma init_again (a : InitArgs SequenceInput) (self : SequenceInput)
    (v : pyval) :
  __init__ a = Ok self →
  ∃ self', __init__ (with_conv_filter_sizes v (to_dict self)) = Ok self'
           ∧ conv_filter_sizes self' = v.
Proof.
  unfold __init__, to_dict.
  destruct (negb (bool_decide (encoding a ∈ allowed_encodings))) eqn:Henc;
    [done|].
  destruct (new_Encoder _ _ _ _ _) as [enc|] eqn:Hnew; [|done]. cbn.
  destruct (if String.eqb (encoding a) "embedding" then _ else _)
    as [dims|] eqn:Hdims; [|done].
  cbn. intros [= <-]. cbn. rewrite Henc, Hnew. cbn. rewrite Hdims. cbn.
  eexists. split; [done|]. done.
Qed.

(** X26.  For a constructed descriptor without a source of convolution
    weights whose [conv_filter_sizes] is a list of layer records that map
    integer filter widths to integer filter counts, serialising it to the
    configuration mapping, passing the mapping through JSON text and
    reconstructing with [from_dict] gives a descriptor with the same layer
    records, integer keys included. *)
Theorem roundtrip_integer_records (a : InitArgs SequenceInput)
    (self : SequenceInput) (h : heap) (ds : list dict) :
  __init__ a = Ok self →
  conv_weight_source self = None →
  layer_records h (conv_filter_sizes self) = Some ds →
  Forall integer_record ds →
  roundtrip_preserves self h.
Proof.
  intros Hinit Hws Hrec Hint.
  destruct (layer_records_locs _ _ _ Hrec) as (locs & Hcfs & Hlocs).
  set (n := Datatypes.length h).
  set (h1 := h ++ (json_dict <$> ds)).
  set (n1 := Datatypes.length h1).
  set (v := VList (VDict <$> seq n1 (Datatypes.length ds))).
  destruct (init_again a self v Hinit) as (self' & Hinit' & Hv).
  assert (roundtrip self h = (Ok self', h1 ++ ds)) as Hrun.
  { unfold roundtrip, json_roundtrip, to_dict. rewrite Hws, Hcfs.
    bind_step. bind_step.
    bind_step.
    rewrite <- (app_nil_r h) at 1.
    rewrite (map_M_copies json_layer (λ _, True) json_dict locs ds h []
               json_layer_copies).
    2:{ eapply Forall2_impl; [done|]. by cbn. }
    rewrite app_nil_r. fold n h1. unfold mret at 1 2, M_ret at 1 2.
    unfold from_dict. cbn [conv_filter_sizes with_conv_filter_sizes iter].
    bind_step. unfold mret at 1, M_ret at 1.
    bind_step.
    rewrite <- (app_nil_r h1) at 1.
    rewrite (map_M_copies from_dict_layer _ integer_keys_of
               (seq n (Datatypes.length ds)) (json_dict <$> ds) h1 []
               from_dict_layer_copies).
    2:{ apply Forall2_fmap_r. apply Forall2_same_length_lookup_2.
        { by rewrite length_seq. }
        intros i l d Hl Hd. apply lookup_seq in Hl as [-> Hi]. split.
        - unfold h1. rewrite lookup_app_r by (unfold n; lia).
          replace (n + i - Datatypes.length h)%nat with i by (unfold n; lia).
          by rewrite list_lookup_fmap, Hd.
        - exists d. apply integer_keys_json_dict.
          by eapply Forall_lookup_1. }
    rewrite app_nil_r, length_fmap. fold n1 v.
    assert (integer_keys_of <$> (json_dict <$> ds) = ds) as ->.
    { clear -Hint. induction Hint as [|d ds Hd _ IH]; [done|]. cbn.
      rewrite IH. f_equal. unfold integer_keys_of.
      by rewrite integer_keys_json_dict. }
    unfold lift.
    replace (with_conv_filter_sizes v
               (with_conv_filter_sizes
                  (VList (VDict <$> seq n (Datatypes.length ds))) (cfg self)))
      with (with_conv_filter_sizes v (to_dict self)) by done.
    by rewrite Hinit'. }
  assert (layer_records (h1 ++ ds) (conv_filter_sizes self') = Some ds)
    as Hnew.
  { rewrite Hv. apply layer_records_new. }
  by exists self', (h1 ++ ds), ds.
Qed.

End roundtrip.

Lemma roundtrip_integer_records_witness :
  ∃ self, __init__ two_layer_args = Ok self
          ∧ roundtrip_preserves self two_layer_heap.
Proof.
  eexists. split; [reflexivity|].
  eapply (roundtrip_integer_records two_layer_args _ two_layer_heap
            two_layer_heap).
  - reflexivity.
  - reflexivity.
  - reflexivity.
  - repeat constructor; try (by eexists _, _);
      rewrite ?elem_of_cons, ?elem_of_nil; naive_solver.
Defined.

(** C8.  The constructor takes a layer record with an override key and
    [build] builds it, but the record does not come back from the round
    trip: JSON hands it to [from_dict] with the key "pool_size", [from_dict]
    passes every key to [int], and the [ValueError] of [int] ends the
    reconstruction. *)
Theorem roundtrip_fails_on_override_key :
  ∃ self, __init__ override_args = Ok self
          ∧ (∃ built h', build self override_heap = (Ok built, h'))
          ∧ (roundtrip self override_heap).1
            = Raise (invalid_literal "pool_size")
          ∧ ¬ roundtrip_preserves self override_heap.
Proof.
  eexists. split; [reflexivity|]. split; [by eexists _, _|].
  split; [reflexivity|].
  intros (self' & h' & ds & Hrun & _). vm_compute in Hrun. discriminate Hrun.
Qed.

End roundtrip_properties.

(** ** More on the masked losses *)

Section masked_losses.
Import losses.

(** The masked sum of any entry-wise error. *)
Lemma masked_sum (f : num → num → num) t p :
  Num.sum (zip_with3 switch (map Num.is_nan t)
             (replicate (length (zip_with f t p)) Num.zero) (zip_with f t p))
  = Num.sum (map (λ tp, f tp.1 tp.2) (observed t p)).
Proof.
  unfold observed, zip_with3. revert p.
  induction t as [|a t IH]; intros [|b p]; try done.
  cbn [map zip_with length replicate zip].
  change (Num.sum (?x :: ?l)) with (Num.add x (Num.sum l)).
  specialize (IH p). destruct (Num.is_nan a) eqn:Ha.
  - rewrite filter_cons_False by (cbn; congruence). cbn [fst snd switch].
    rewrite add_zero_l by apply sum_rounded. apply IH.
  - rewrite filter_cons_True by done. cbn [map fst snd switch].
    change (Num.sum (?x :: ?l)) with (Num.add x (Num.sum l)).
    f_equal. apply IH.
Qed.

Lemma masked_binary_crossentropy_samples bce yt yp :
  masked_binary_crossentropy bce yt yp
  = zip_with (masked_binary_crossentropy_sample bce) yt yp.
Proof.
  unfold masked_binary_crossentropy, K_binary_crossentropy, K_sum, K_switch,
    K_zeros, K_shape, K_cast, invert, is_nan, elementwise, zip_with3.
  revert yp. induction yt as [|t yt IH]; intros [|p yp]; try done.
  cbn. f_equal. apply IH.
Qed.

Lemma masked_binary_crossentropy_sample_spec bce t p :
  length t = length p →
  masked_binary_crossentropy_sample bce t p = masked_mean bce t p.
Proof.
  intros Hl. unfold masked_binary_crossentropy_sample, masked_mean.
  by rewrite masked_sum, (n_valid_sample_count t p).
Qed.

Lemma masked_binary_crossentropy_rows bce yt yp :
  equal_shaped yt yp →
  masked_binary_crossentropy bce yt yp = zip_with (masked_mean bce) yt yp.
Proof.
  intros Hs. rewrite masked_binary_crossentropy_samples.
  apply (zip_with_samples _ _ (λ _, True)); [done|by apply Forall_true|].
  intros t p Hl _. by apply masked_binary_crossentropy_sample_spec.
Qed.

Lemma masked_mse_rows yt yp :
  equal_shaped yt yp → masked_mse yt yp = zip_with spec_masked_mse yt yp.
Proof.
  intros Hs. rewrite masked_mse_samples.
  apply (zip_with_samples _ _ (λ _, True)); [done|by apply Forall_true|].
  intros t p Hl _. by apply masked_mse_sample_spec.
Qed.

(** X1.  For a ground truth and predictions of equal shape,
    [masked_binary_crossentropy] gives for every sample the sum of the
    backend's cross-entropy over the observed positions, those whose ground
    truth is not NaN, divided by the number of observed positions. *)
Theorem masked_binary_crossentropy_mean_over_observed
    (binary_crossentropy : num → num → num) (y_true y_pred : tensor) :
  equal_shaped y_true y_pred →
  masked_binary_crossentropy binary_crossentropy y_true y_pred
  = zip_with (masked_mean binary_crossentropy) y_true y_pred.
Proof. apply masked_binary_crossentropy_rows. Qed.

Lemma masked_binary_crossentropy_mean_over_observed_witness :
  masked_binary_crossentropy Num.sub examples.y_sparse examples.y_pred
  = zip_with (masked_mean Num.sub) examples.y_sparse examples.y_pred.
Proof.
  apply (masked_binary_crossentropy_mean_over_observed Num.sub
           examples.y_sparse examples.y_pred).
  by repeat constructor.
Defined.

(** X2.  For a ground truth and predictions of equal shape, a sample whose
    ground truth is NaN at every position gets NaN as its masked
    cross-entropy, zero divided by zero, whatever is predicted and whatever
    the backend's cross-entropy is. *)
Theorem masked_binary_crossentropy_zero_observed
    (binary_crossentropy : num → num → num) (y_true y_pred : tensor)
    (i : nat) (t p : list num) :
  equal_shaped y_true y_pred →
  y_true !! i = Some t → y_pred !! i = Some p →
  Forall (λ a, a = NaN) t →
  masked_binary_crossentropy binary_crossentropy y_true y_pred !! i
  = Some NaN.
Proof.
  intros _ Hti Hpi Hnan.
  rewrite masked_binary_crossentropy_samples, lookup_zip_with, Hti, Hpi.
  cbn. f_equal. unfold masked_binary_crossentropy_sample.
  rewrite masked_sum, (observed_none t p Hnan).
  assert (n_valid_sample t = Num.zero) as ->.
  { rewrite (n_valid_sample_count t t) by done.
    by rewrite (observed_none t t Hnan), <- of_nat_0. }
  done.
Qed.

Lemma masked_binary_crossentropy_zero_observed_witness :
  masked_binary_crossentropy Num.sub examples.y_unobserved examples.y_pred
    !! 0%nat = Some NaN.
Proof.
  apply (masked_binary_crossentropy_zero_observed Num.sub
           examples.y_unobserved examples.y_pred 0 [NaN; NaN]
           [Fin (Qc_of_Z (-1)); Fin (Qc_of_Z 3)]).
  - by repeat constructor.
  - reflexivity.
  - reflexivity.
  - by repeat constructor.
Defined.

(** *** What the masked losses do not read *)

Lemma Forall3_equal_shaped_l {P : num → num → num → Prop}
    (m x x' : tensor) :
  Forall3 (Forall3 P) m x x' → equal_shaped m x ∧ equal_shaped m x'.
Proof.
  induction 1 as [|t p p' m x x' Hrow _ [IH1 IH2]]; [by split; constructor|].
  split; constructor; try done.
  - clear -Hrow. induction Hrow; [done|]. cbn. by f_equal.
  - clear -Hrow. induction Hrow; [done|]. cbn. by f_equal.
Qed.

Lemma observed_agree t p p' :
  Forall3 (λ a b b', is_number a → b = b') t p p' →
  observed t p = observed t p'.
Proof.
  unfold observed. induction 1 as [|a b b' t p p' Hab _ IH]; [done|].
  cbn [zip zip_with]. destruct (Num.is_nan a) eqn:Ha.
  - by rewrite !filter_cons_False by (cbn; congruence).
  - rewrite !filter_cons_True by done. rewrite IH, Hab; done.
Qed.

Lemma zip_with_agree (f : list num → list num → num)
    (P : num → num → num → Prop) (m x x' : tensor) :
  Forall3 (Forall3 P) m x x' →
  (∀ t p p', Forall3 P t p p' → f t p = f t p') →
  zip_with f m x = zip_with f m x'.
Proof.
  intros Hm Hf. induction Hm as [|t p p' m x x' Hrow _ IH]; [done|].
  cbn. f_equal; auto.
Qed.

(** X3.  [masked_mse] and [masked_binary_crossentropy] do not depend on
    what is predicted at the unobserved positions: two predictions that
    agree wherever the ground truth is a number get the same losses. *)
Theorem masked_losses_ignore_unobserved
    (binary_crossentropy : num → num → num) (y_true y_pred y_pred' : tensor) :
  agree_where is_number y_true y_pred y_pred' →
  masked_mse y_true y_pred = masked_mse y_true y_pred'
  ∧ masked_binary_crossentropy binary_crossentropy y_true y_pred
    = masked_binary_crossentropy binary_crossentropy y_true y_pred'.
Proof.
  intros Hagree. destruct (Forall3_equal_shaped_l _ _ _ Hagree) as [Hs Hs'].
  split.
  - rewrite !masked_mse_rows by done.
    apply (zip_with_agree _ _ _ _ _ Hagree). intros t p p' Hrow.
    unfold spec_masked_mse. by rewrite (observed_agree t p p').
  - rewrite !masked_binary_crossentropy_rows by done.
    apply (zip_with_agree _ _ _ _ _ Hagree). intros t p p' Hrow.
    unfold masked_mean. by rewrite (observed_agree t p p').
Qed.

Lemma masked_losses_ignore_unobserved_witness :
  masked_mse examples.y_sparse examples.y_pred
  = masked_mse examples.y_sparse
      [[Fin 1%Qc; Fin (Qc_of_Z 3)]; [Fin (Qc_of_Z (-2)); Fin (Qc_of_Z (-1))]].
Proof.
  apply (masked_losses_ignore_unobserved Num.sub examples.y_sparse
           examples.y_pred
           [[Fin 1%Qc; Fin (Qc_of_Z 3)];
            [Fin (Qc_of_Z (-2)); Fin (Qc_of_Z (-1))]]).
  repeat constructor; done.
Defined.

(** *** Exact predictions *)

Lemma squared_error_same a : is_finite a → squared_error a a = Num.zero.
Proof.
  intros [x ->]. unfold squared_error. cbn [Num.sub].
  replace (x - x)%Qc with 0%Qc by ring. rewrite round_zero.
  unfold Num.square, Num.zero. cbn [Num.mul].
  replace (0 * 0)%Qc with 0%Qc by ring. apply round_zero.
Qed.

Lemma sum_zeros n : Num.sum (replicate n Num.zero) = Num.zero.
Proof.
  induction n as [|n IH]; [done|]. cbn [replicate].
  change (Num.sum (?x :: ?l)) with (Num.add x (Num.sum l)).
  rewrite IH. apply add_zero_l, round_zero.
Qed.

Lemma observed_exact t p :
  Forall2 (λ a b, is_number a → is_finite a ∧ b = a) t p →
  map (λ tp, squared_error tp.1 tp.2) (observed t p)
  = replicate (length (observed t p)) Num.zero.
Proof.
  unfold observed. induction 1 as [|a b t p Hab _ IH]; [done|].
  cbn [zip zip_with]. destruct (decide (Num.is_nan a = false)) as [Ha|Ha].
  - rewrite filter_cons_True by done. cbn [map length replicate fst snd].
    destruct (Hab Ha) as [Hfin ->]. rewrite IH. f_equal.
    by apply squared_error_same.
  - by rewrite filter_cons_False.
Qed.

(** X4.  When every observed entry of the ground truth is a finite number
    and the prediction equals it there, and every sample has an observed
    position, [masked_mse] is zero for every sample.  (An observed infinity
    is excluded: the difference of two equal infinities is NaN.) *)
Theorem masked_mse_zero_when_exact (y_true y_pred : tensor) :
  Forall2 (Forall2 (λ a b, is_number a → is_finite a ∧ b = a))
    y_true y_pred →
  Forall (Exists is_number) y_true →
  masked_mse y_true y_pred = replicate (length y_true) Num.zero.
Proof.
  intros Hexact Hobs.
  assert (equal_shaped y_true y_pred) as Hs.
  { eapply Forall2_impl; [done|]. intros t p. apply Forall2_length. }
  rewrite masked_mse_rows by done. clear Hs.
  induction Hexact as [|t p yt yp Hrow _ IH]; [done|].
  apply Forall_cons in Hobs as [Ht Hobs]. cbn. f_equal; [|by apply IH].
  unfold spec_masked_mse. rewrite observed_exact, sum_zeros by done.
  apply div_zero_of_nat. intros Hlen. apply length_zero_iff_nil in Hlen.
  revert Hlen. apply observed_some; [by eapply Forall2_length|done].
Qed.

Lemma masked_mse_zero_when_exact_witness :
  masked_mse examples.y_sparse
    [[Fin 0%Qc; Fin (Qc_of_Z 2)]; [Fin 0%Qc; Fin 1%Qc]]
  = [Num.zero; Num.zero].
Proof.
  apply (masked_mse_zero_when_exact examples.y_sparse
           [[Fin 0%Qc; Fin (Qc_of_Z 2)]; [Fin 0%Qc; Fin 1%Qc]]).
  - constructor; [|constructor; [|constructor]];
      (constructor; [|constructor; [|constructor]]);
      intros Ha; first [discriminate Ha|split; [by eexists|reflexivity]].
  - constructor; [apply Exists_cons_tl, Exists_cons_hd; reflexivity|].
    constructor; [apply Exists_cons_hd; reflexivity|constructor].
Defined.

(** X25.  For arrays of one shape with [d] features per sample in which no
    squared error under a negative prediction is NaN or has overflowed,
    [positive_only_mse] is, sample by sample, the sum of the squared errors
    with the entries at negative predictions replaced by zero, divided by
    the full feature count [d].  Hence a sample whose predictions are all
    negative has loss 0 (for [d > 0]), and a sample without a negative
    prediction has the plain mean squared error. *)
Theorem positive_only_mse_masked_mean (d : nat) (y_true y_pred : tensor) :
  has_shape d y_true → finite_where_negative y_true y_pred →
  positive_only_mse y_true y_pred
  = zip_with (spec_positive_only_mse d) y_true y_pred
  ∧ ∀ i t p, y_true !! i = Some t → y_pred !! i = Some p →
      ((0 < d)%nat → Forall negative p →
       positive_only_mse y_true y_pred !! i = Some Num.zero)
      ∧ (Forall not_negative p →
         positive_only_mse y_true y_pred !! i = Some (plain_mse d t p)).
Proof.
  intros Ht Hfin.
  pose proof (positive_only_mse_rows d y_true y_pred Ht Hfin) as Heq.
  split; [done|]. intros i t p Hti Hpi. rewrite Heq, lookup_zip_with, Hti, Hpi.
  cbn. unfold spec_positive_only_mse, plain_mse. split.
  - intros Hd Hneg. rewrite sum_zeros_negative by done.
    rewrite div_zero_of_nat; [done|lia].
  - intros Hnn. by rewrite squares_not_negative.
Qed.

Lemma positive_only_mse_masked_mean_witness :
  positive_only_mse examples.y_true examples.y_pred
  = zip_with (spec_positive_only_mse 2) examples.y_true examples.y_pred.
Proof.
  apply (positive_only_mse_masked_mean 2 examples.y_true examples.y_pred).
  - by repeat constructor.
  - repeat constructor; intros _; eexists; by vm_compute.
Defined.

(** *** Bounds on the positive-only loss *)

Lemma round_fin q q' : Num.round q = Fin q' → q' = q ∧ Num.round q = Fin q.
Proof.
  unfold Num.round. case_bool_decide; [|done]. by intros [= <-].
Qed.

(** Between zero and a rational that did not overflow nothing
    overflows. *)
Lemma round_between q q' :
  (0 ≤ q)%Qc → (q ≤ q')%Qc → Num.round q' = Fin q' → Num.round q = Fin q.
Proof.
  unfold Num.round. intros H0 Hle. case_bool_decide as Hq'; [|done].
  intros _. destruct Hq' as [_ Hlt]. rewrite bool_decide_eq_true_2; [done|].
  split.
  - eapply Qclt_le_trans; [apply threshold_negative|done].
  - by eapply Qcle_lt_trans.
Qed.

Lemma add_fin a b s :
  Num.add a b = Fin s →
  ∃ x y, a = Fin x ∧ b = Fin y ∧ s = (x + y)%Qc
         ∧ Num.round (x + y) = Fin (x + y).
Proof.
  destruct a as [x|sa|], b as [y|sb|]; try done; cbn.
  - intros [-> Hr]%round_fin. by exists x, y.
  - by destruct (Bool.eqb sa sb).
Qed.

Lemma Qcsquare_nonneg (x : Qc) : (0 ≤ x * x)%Qc.
Proof.
  destruct (Qclt_le_dec x 0) as [Hneg|Hpos].
  - replace (x * x)%Qc with ((- x) * (- x))%Qc by ring.
    assert (0 ≤ - x)%Qc as Hx.
    { apply Qclt_le_weak. rewrite <- (Qcplus_0_r (- x)).
      replace 0%Qc with (x + - x)%Qc at 1 by ring.
      rewrite (Qcplus_comm x). by apply Qcplus_lt_mono_l. }
    by apply Qcmult_nonneg_nonneg.
  - by apply Qcmult_nonneg_nonneg.
Qed.

Lemma square_fin a s : Num.square a = Fin s → (0 ≤ s)%Qc.
Proof.
  destruct a as [x|sa|]; try done. unfold Num.square. cbn.
  intros [-> _]%round_fin. apply Qcsquare_nonneg.
Qed.

(** Where the squared error is a rational, the masked squared error is a
    rational between zero and it. *)
Lemma masked_term_bounds (a b : num) (s : Qc) :
  squared_error a b = Fin s →
  ∃ m, Num.mul (Num.square (Num.sub b a)) (cast (Num.geb b Num.zero)) = Fin m
       ∧ (0 ≤ m)%Qc ∧ (m ≤ s)%Qc.
Proof.
  unfold squared_error. intros Hs. pose proof (square_fin _ _ Hs) as H0.
  destruct (Num.geb b Num.zero); cbn [cast].
  - rewrite mul_one_r by apply mul_rounded. exists s.
    split; [done|]. split; [done|apply Qcle_refl].
  - rewrite Hs, mul_zero_r. exists 0%Qc.
    split; [done|]. split; [apply Qcle_refl|done].
Qed.

Lemma masked_terms_bounds (t p : list num) :
  Forall2 (λ m s, ∀ qs, s = Fin qs →
                        ∃ qm, m = Fin qm ∧ (0 ≤ qm)%Qc ∧ (qm ≤ qs)%Qc)
    (zip_with Num.mul (map Num.square (zip_with Num.sub p t))
       (map cast (map (λ p, Num.geb p Num.zero) p)))
    (zip_with squared_error t p).
Proof.
  revert p. induction t as [|a t IH]; intros [|b p]; try constructor.
  - intros qs. apply masked_term_bounds.
  - apply IH.
Qed.

Lemma sum_bounds (ms ss : list num) (s : Qc) :
  Forall2 (λ m s, ∀ qs, s = Fin qs →
                        ∃ qm, m = Fin qm ∧ (0 ≤ qm)%Qc ∧ (qm ≤ qs)%Qc)
    ms ss →
  Num.sum ss = Fin s →
  ∃ m, Num.sum ms = Fin m ∧ (0 ≤ m)%Qc ∧ (m ≤ s)%Qc.
Proof.
  intros Hms. revert s. induction Hms as [|m1 s1 ms ss H1 _ IH]; intros s.
  - intros [= <-]. exists 0%Qc. repeat split; apply Qcle_refl.
  - change (Num.sum (?x :: ?l)) with (Num.add x (Num.sum l)).
    intros (x & y & -> & Hy & -> & Hr)%add_fin.
    destruct (H1 x eq_refl) as (qm & -> & Hqm0 & Hqm).
    destruct (IH y Hy) as (m & Hm & Hm0 & Hmy).
    change (Num.sum (?x :: ?l)) with (Num.add x (Num.sum l)).
    rewrite Hm. cbn [Num.add]. exists (qm + m)%Qc.
    assert (0 ≤ qm + m)%Qc as Hsum0.
    { rewrite <- (Qcplus_0_r 0). by apply Qcplus_le_compat. }
    assert (qm + m ≤ x + y)%Qc as Hsum by (by apply Qcplus_le_compat).
    split; [by apply (round_between _ (x + y))|done].
Qed.

Lemma div_bounds (m s q' : Qc) (n : nat) :
  (0 ≤ m)%Qc → (m ≤ s)%Qc →
  Num.div (Fin s) (Num.of_nat n) = Fin q' →
  ∃ q, Num.div (Fin m) (Num.of_nat n) = Fin q ∧ (0 ≤ q)%Qc ∧ (q ≤ q')%Qc.
Proof.
  intros Hm0 Hms. unfold Num.of_nat.
  pose proof (Qc_of_nat_nonneg n) as Hn. set (x := Qc_of_Z (Z.of_nat n)) in *.
  destruct (round_cases x) as [-> | ->]; cbn [Num.div].
  - case_bool_decide as Hx; [by case_bool_decide|].
    intros [-> Hr]%round_fin.
    assert (0 < x)%Qc as Hpos.
    { apply Qcle_lt_or_eq in Hn as [?|?]; [done|]. by destruct Hx. }
    pose proof (Qclt_le_weak _ _ (Qcinv_pos _ Hpos)) as Hinv.
    exists (m / x)%Qc. unfold Qcdiv in *.
    assert (0 ≤ m * / x)%Qc as H0 by (by apply Qcmult_nonneg_nonneg).
    assert (m * / x ≤ s * / x)%Qc as Hle by (by apply Qcmult_le_compat_r).
    split; [by apply (round_between _ (s * / x))|done].
  - intros [= <-]. exists 0%Qc. repeat split; apply Qcle_refl.
Qed.

Lemma sample_bounds d t p q' :
  length t = d → length p = d →
  plain_mse d t p = Fin q' →
  ∃ q, positive_only_mse_sample t p = Fin q ∧ (0 ≤ q)%Qc ∧ (q ≤ q')%Qc.
Proof.
  intros Ht Hp. unfold plain_mse, positive_only_mse_sample.
  rewrite length_squares by congruence. rewrite Ht.
  destruct (Num.sum (zip_with squared_error t p)) as [s|sg|] eqn:Hs;
    [|by destruct (Num.of_nat d)|done].
  destruct (sum_bounds _ _ s (masked_terms_bounds t p) Hs)
    as (m & -> & Hm0 & Hms).
  by apply div_bounds.
Qed.

(** X5.  For arrays of one shape with [d] features per sample, whenever the
    plain mean squared error of a sample is a finite number (nothing in it
    is NaN, nothing overflowed), [positive_only_mse] gives the sample a
    finite number that is not negative and not above that mean squared
    error. *)
Theorem positive_only_mse_bounds (d : nat) (y_true y_pred : tensor) :
  has_shape d y_true → has_shape d y_pred → length y_true = length y_pred →
  Forall2 (λ loss mse, ∀ q', mse = Fin q' →
                             ∃ q, loss = Fin q ∧ (0 ≤ q)%Qc ∧ (q ≤ q')%Qc)
    (positive_only_mse y_true y_pred)
    (zip_with (plain_mse d) y_true y_pred).
Proof.
  intros Ht Hp _. rewrite positive_only_mse_samples. revert y_pred Hp.
  induction Ht as [|t yt Hd _ IH]; intros [|p yp] Hp; try constructor.
  - apply Forall_cons in Hp as [Hpd _]. intros q'. by apply sample_bounds.
  - apply Forall_cons in Hp as [_ Hp]. by apply IH.
Qed.

Lemma positive_only_mse_bounds_witness :
  Forall2 (λ loss mse, ∀ q', mse = Fin q' →
                             ∃ q, loss = Fin q ∧ (0 ≤ q)%Qc ∧ (q ≤ q')%Qc)
    (positive_only_mse examples.y_true examples.y_pred)
    (zip_with (plain_mse 2) examples.y_true examples.y_pred).
Proof.
  apply (positive_only_mse_bounds 2 examples.y_true examples.y_pred);
    by repeat constructor.
Defined.

(** *** What the positive-only loss does not read *)

Lemma masked_terms_agree t t' p :
  Forall3 (λ c a a', not_negative c → a = a') p t t' →
  zip_with (λ t p, if Num.ltb p Num.zero then Num.zero
                   else squared_error t p) t p
  = zip_with (λ t p, if Num.ltb p Num.zero then Num.zero
                     else squared_error t p) t' p.
Proof.
  induction 1 as [|c a a' p t t' Hc _ IH]; [done|].
  cbn [zip_with]. rewrite IH. f_equal. unfold not_negative in Hc.
  destruct (Num.ltb c Num.zero); [done|]. by rewrite Hc.
Qed.

Lemma Forall3_lengths {A B C} (P : A → B → C → Prop) l k m :
  Forall3 P l k m → length l = length k ∧ length l = length m.
Proof.
  induction 1 as [|? ? ? ? ? ? _ _ [? ?]]; [done|]. cbn. by split; f_equal.
Qed.

(** X6.  [positive_only_mse] does not depend on the ground truth at the
    positions where the prediction is negative, as long as no squared
    error there is NaN or has overflowed: two ground truths that agree
    wherever the prediction is not negative, and whose squared errors under
    the negative predictions are finite numbers, get the same losses. *)
Theorem positive_only_mse_ignores_masked_truth
    (y_true y_true' y_pred : tensor) :
  agree_where not_negative y_pred y_true y_true' →
  finite_where_negative y_true y_pred →
  finite_where_negative y_true' y_pred →
  positive_only_mse y_true y_pred = positive_only_mse y_true' y_pred.
Proof.
  unfold finite_where_negative. intros Hagree Hn Hn'.
  rewrite !positive_only_mse_samples.
  induction Hagree as [|p t t' yp yt yt' Hrow _ IH]; [done|].
  apply Forall2_cons in Hn as [Ht Hn]. apply Forall2_cons in Hn' as [Ht' Hn'].
  cbn. f_equal; [|by apply IH].
  destruct (Forall3_lengths _ _ _ _ Hrow) as [Hl Hl'].
  rewrite !positive_only_mse_sample_spec by done.
  unfold spec_positive_only_mse.
  by rewrite (masked_terms_agree t t' p), <- Hl, Hl'.
Qed.

Lemma positive_only_mse_ignores_masked_truth_witness :
  positive_only_mse examples.y_true examples.y_pred
  = positive_only_mse [[Fin 0%Qc; Fin (Qc_of_Z 2)]; [Fin 1%Qc; Fin 0%Qc]]
      examples.y_pred.
Proof.
  apply (positive_only_mse_ignores_masked_truth examples.y_true
           [[Fin 0%Qc; Fin (Qc_of_Z 2)]; [Fin 1%Qc; Fin 0%Qc]]
           examples.y_pred).
  - repeat constructor; done.
  - repeat constructor; intros _; eexists; by vm_compute.
  - repeat constructor; intros _; eexists; by vm_compute.
Defined.

(** *** Shapes *)

(** X7.  A sample with no feature gets NaN from [positive_only_mse]: the
    mean of no value. *)
Theorem positive_only_mse_no_features (y_true y_pred : tensor) (i : nat) :
  y_true !! i = Some [] → y_pred !! i = Some [] →
  positive_only_mse y_true y_pred !! i = Some NaN.
Proof.
  intros Hti Hpi.
  by rewrite positive_only_mse_samples, lookup_zip_with, Hti, Hpi.
Qed.

Lemma positive_only_mse_no_features_witness :
  positive_only_mse [[]] [[]] !! 0%nat = Some NaN.
Proof.
  apply (positive_only_mse_no_features [[]] [[]] 0); reflexivity.
Defined.

End masked_losses.

(** ** More on the constructor and what it derives *)

Section descriptor_properties.
Import Py nn_helpers sequence_input examples.

Section constructed.
Context `{EncoderAPI}.

(** What a successful construction says about its arguments and about the
    descriptor. *)
Lemma init_ok (a : InitArgs SequenceInput) (self : SequenceInput) :
  __init__ a = Ok self →
  ∃ enc,
    new_Encoder (variable_length a) (add_start_tokens a) (add_stop_tokens a)
      (add_normalized_position a) (add_normalized_centrality a) = Ok enc
    ∧ String.eqb (encoding a) "embedding" = false
    ∧ encoding a ∈ allowed_encodings
    ∧ self = {|
        cfg := with_mask_zero
                 (Some (match mask_zero a with
                        | None => variable_length a
                        | Some b => b
                        end)) a;
        padded_length :=
          length a + Z.b2z (add_start_tokens a) + Z.b2z (add_stop_tokens a);
        encoder := enc;
        n_symbols := Z.of_nat (Datatypes.length (tokens enc));
        extra_input_dims :=
          Z.b2z (add_normalized_position a)
          + Z.b2z (add_normalized_centrality a);
        n_input_dims :=
          Some ((if String.eqb (encoding a) "onehot"
                 then Z.of_nat (Datatypes.length (tokens enc)) else 20)
                + (Z.b2z (add_normalized_position a)
                   + Z.b2z (add_normalized_centrality a))) |}.
Proof.
  unfold __init__. case_bool_decide as Henc; [|done]. cbn [negb].
  destruct new_Encoder as [enc|]; [|done]. cbn.
  destruct (String.eqb (encoding a) "embedding") eqn:Hemb; [done|].
  exists enc. split; [done|]. split; [done|]. split; [done|].
  by destruct (String.eqb (encoding a) "onehot"); cbn in *; simplify_eq.
Qed.

(** X9.  The constructor returns a descriptor exactly when the encoding is
    "onehot", "blosum" or "pmbec" and the encoder's own constructor accepts
    the five flags passed on to it; no other argument can make it raise. *)
Theorem construction_succeeds_iff (a : InitArgs SequenceInput) :
  (∃ self, __init__ a = Ok self)
  ↔ encoding a ∈ ["onehot"; "blosum"; "pmbec"]
    ∧ ∃ enc, new_Encoder (variable_length a) (add_start_tokens a)
               (add_stop_tokens a) (add_normalized_position a)
               (add_normalized_centrality a) = Ok enc.
Proof.
  split.
  - intros [self Hinit].
    destruct (init_ok a self Hinit) as (enc & Hnew & Hemb & Hin & _).
    split; [|by exists enc]. apply String.eqb_neq in Hemb.
    unfold allowed_encodings in Hin.
    rewrite !elem_of_cons, elem_of_nil in Hin.
    rewrite !elem_of_cons, elem_of_nil. tauto.
  - intros [Hin [enc Hnew]]. unfold __init__.
    rewrite bool_decide_eq_true_2.
    2:{ unfold allowed_encodings.
        rewrite !elem_of_cons, elem_of_nil in Hin.
        rewrite !elem_of_cons, elem_of_nil. tauto. }
    cbn [negb]. rewrite Hnew. cbn.
    assert (String.eqb (encoding a) "embedding" = false) as ->.
    { apply String.eqb_neq. intros Heq. rewrite Heq in Hin.
      rewrite !elem_of_cons, elem_of_nil in Hin.
      by destruct Hin as [?|[?|[?|[]]]]. }
    destruct (String.eqb (encoding a) "onehot"); cbn; by eexists.
Qed.

(** X10.  On a constructed descriptor the padded length is the length
    plus one for each of the start and stop tokens asked for, so between
    the length and the length plus two; the number of symbols is the size
    of the encoder's vocabulary; the extra input dimensions count the
    normalized position and centrality asked for, so between zero and two;
    and the input dimensions are the number of symbols for "onehot", and
    twenty otherwise, plus the extra ones. *)
Theorem derived_attributes (a : InitArgs SequenceInput)
    (self : SequenceInput) :
  __init__ a = Ok self →
  padded_length self
  = length a + Z.b2z (add_start_tokens a) + Z.b2z (add_stop_tokens a)
  ∧ length a ≤ padded_length self ≤ length a + 2
  ∧ n_symbols self = Z.of_nat (Datatypes.length (tokens (encoder self)))
  ∧ extra_input_dims self
    = Z.b2z (add_normalized_position a) + Z.b2z (add_normalized_centrality a)
  ∧ 0 ≤ extra_input_dims self ≤ 2
  ∧ n_input_dims self
    = Some ((if String.eqb (encoding a) "onehot" then n_symbols self else 20)
            + extra_input_dims self).
Proof.
  intros Hinit. destruct (init_ok a self Hinit) as (enc & _ & _ & _ & ->).
  cbn. repeat split; try done.
  all: destruct (add_start_tokens a), (add_stop_tokens a),
         (add_normalized_position a), (add_normalized_centrality a); cbn; lia.
Qed.

(** X11.  Constructing a descriptor again from the configuration mapping
    of a constructed descriptor gives the same descriptor: the resolved
    [mask_zero] it holds is taken as it is. *)
Theorem reconstruct_from_to_dict (a : InitArgs SequenceInput)
    (self : SequenceInput) :
  __init__ a = Ok self → __init__ (to_dict self) = Ok self.
Proof.
  intros Hinit.
  destruct (init_ok a self Hinit) as (enc & Hnew & Hemb & Hin & ->).
  unfold to_dict, __init__. cbn.
  rewrite bool_decide_eq_true_2 by done. cbn. rewrite Hnew. cbn.
  rewrite Hemb. by destruct (String.eqb (encoding a) "onehot").
Qed.

(** X12.  Whatever a constructed descriptor (assertions enabled) builds,
    its input is the placeholder for sequences of vectors, of the padded
    length and the input dimensions, never the placeholder for index
    sequences; the embedding stage makes no embedding layer and returns the
    placeholder, and the convolution stage is run on the placeholder
    itself, its result going through the later stages. *)
Theorem build_input_placeholder (a : InitArgs SequenceInput)
    (self : SequenceInput) (h h' : heap) (input_object value : tensor) :
  __init__ a = Ok self →
  build self h = (Ok (input_object, value), h') →
  input_object
  = make_vector_sequence_input (name a)
      (length a + Z.b2z (add_start_tokens a) + Z.b2z (add_stop_tokens a))
      (Some ((if String.eqb (encoding a) "onehot"
              then Z.of_nat (Datatypes.length (tokens (encoder self)))
              else 20)
             + (Z.b2z (add_normalized_position a)
                + Z.b2z (add_normalized_centrality a))))
  ∧ _build_embedding self input_object = Ok input_object
  ∧ ∃ convolved,
      _build_conv build self input_object h = (Ok convolved, h')
      ∧ value
        = _build_highway self
            (_build_dense self
               (_build_global_pooling self (_build_rnn self convolved))).
Proof.
  intros Hinit. destruct (init_ok a self Hinit) as (enc & _ & Hemb & _ & ->).
  cbn [build]. unfold _build_embedding, _build_input.
  cbn [cfg encoding with_mask_zero]. rewrite Hemb.
  unfold mbind at 1, M_bind at 1, lift.
  unfold mbind at 1, M_bind at 1.
  match goal with
  | |- context [_build_conv ?b ?s ?v h] =>
      destruct (_build_conv b s v h) as [[v'|e] h1] eqn:Hconv; [|done]
  end.
  unfold mret, M_ret. intros [= <- <- <-].
  split; [done|]. split; [done|]. by exists v'.
Qed.

Section encoding.
Context `{!EncoderMethods}.

(** X13.  [encode] on a constructed descriptor always reaches the call of
    an encoder method: [encode_onehot], [encode_pmbec] or [encode_blosum]
    by the encoding, with the unpadded length as the maximal peptide
    length.  It never calls [encode_index_array] and never finds [fn]
    unbound. *)
Theorem encode_dispatch (a : InitArgs SequenceInput) (self : SequenceInput)
    (peptides : list string) :
  __init__ a = Ok self →
  encode self peptides
  = Called ((if String.eqb (encoding a) "onehot" then encode_onehot
             else if String.eqb (encoding a) "pmbec" then encode_pmbec
             else encode_blosum)
              (encoder self) peptides (length a)).
Proof.
  intros Hinit. destruct (init_ok a self Hinit) as (enc & _ & Hemb & Hin & ->).
  unfold encode. cbn. rewrite Hemb.
  destruct (String.eqb (encoding a) "onehot") eqn:H1; [done|].
  destruct (String.eqb (encoding a) "pmbec") eqn:H2; [done|].
  destruct (String.eqb (encoding a) "blosum") eqn:H3; [done|].
  apply String.eqb_neq in Hemb, H1, H2, H3.
  unfold allowed_encodings in Hin. rewrite !elem_of_cons, elem_of_nil in Hin.
  tauto.
Qed.
End encoding.

End constructed.

Lemma derived_attributes_witness :
  ∃ self,
    __init__ (with_add_normalized_position true (defaults 9)) = Ok self
    ∧ extra_input_dims self = 1
    ∧ n_input_dims self = Some 22.
Proof.
  eexists. split; [reflexivity|].
  match goal with
  | |- extra_input_dims ?self = _ ∧ _ =>
      destruct (derived_attributes
                  (with_add_normalized_position true (defaults 9)) self
                  eq_refl)
        as (_ & _ & _ & Hextra & _ & Hdims)
  end.
  split; [exact Hextra|exact Hdims].
Defined.

Lemma reconstruct_from_to_dict_witness :
  ∃ self,
    __init__ (with_variable_length true (defaults 9)) = Ok self
    ∧ __init__ (to_dict self) = Ok self.
Proof.
  eexists. split; [reflexivity|].
  exact (reconstruct_from_to_dict
           (with_variable_length true (defaults 9)) _ eq_refl).
Defined.

Lemma build_input_placeholder_witness :
  ∃ self input_object value h',
    __init__ two_layer_args = Ok self
    ∧ build self two_layer_heap = (Ok (input_object, value), h')
    ∧ input_object = make_vector_sequence_input None 9 (Some 21)
    ∧ _build_embedding self input_object = Ok input_object.
Proof.
  do 4 eexists. split; [reflexivity|]. split; [reflexivity|].
  destruct (build_input_placeholder two_layer_args _ two_layer_heap _ _ _
              eq_refl eq_refl) as (Hinput & Hemb & _).
  split; [exact Hinput|exact Hemb].
Defined.

Lemma encode_dispatch_witness :
  ∃ self,
    __init__ (with_encoding "pmbec" (defaults 9)) = Ok self
    ∧ encode self ["SIINFEKL"] = Called (Ok ("pmbec", 9)).
Proof.
  eexists. split; [reflexivity|].
  exact (encode_dispatch (with_encoding "pmbec" (defaults 9)) _ ["SIINFEKL"]
           eq_refl).
Defined.

End descriptor_properties.

(** ** More on [build] and the store of layer records *)

Section store_properties.
Import Py nn_helpers sequence_input examples.

(** *** Taking entries out of a dictionary *)

Lemma dict_remove_sublist (k : key) (d : dict) : sublist (dict_remove k d) d.
Proof.
  induction d as [|[k' v] d IH]; [done|]. cbn.
  destruct (decide (k' = k)); [by apply sublist_cons|by apply sublist_skip].
Qed.

Lemma dict_get_remove_ne (k k' : key) (d : dict) :
  k' ≠ k → dict_get k' (dict_remove k d) = dict_get k' d.
Proof.
  intros Hne. induction d as [|[k0 v] d IH]; [done|]. cbn.
  destruct (decide (k0 = k)) as [->|Hk0].
  - by rewrite decide_False by done.
  - cbn. by rewrite IH.
Qed.

Lemma dict_get_None (k : key) (d : dict) :
  dict_get k d = None ↔ k ∉ d.*1.
Proof.
  induction d as [|[k' v] d IH]; cbn.
  - split; [intros _; apply not_elem_of_nil|done].
  - rewrite not_elem_of_cons. destruct (decide (k' = k)) as [->|Hne].
    + split; [done|]. by intros [? _].
    + rewrite IH. split; [by split|by intros [_ ?]].
Qed.

Lemma dict_get_remove (k : key) (d : dict) :
  NoDup d.*1 → dict_get k (dict_remove k d) = None.
Proof.
  induction d as [|[k' v] d IH]; [done|]. cbn. intros Hnd.
  apply NoDup_cons in Hnd as [Hk' Hnd].
  destruct (decide (k' = k)) as [->|Hne].
  - by apply dict_get_None.
  - cbn. rewrite decide_False by done. by apply IH.
Qed.

Lemma dict_get_sublist (k : key) (d d' : dict) :
  sublist d' d → dict_get k d = None → dict_get k d' = None.
Proof.
  induction 1 as [|[k0 v] d1 d2 _ IH|[k0 v] d1 d2 _ IH]; cbn; [done| |].
  - destruct (decide (k0 = k)); [done|apply IH].
  - destruct (decide (k0 = k)); [done|apply IH].
Qed.

Lemma no_overrides_sublist (d d' : dict) :
  sublist d' d → no_overrides d → no_overrides d'.
Proof.
  intros Hsub Hd. unfold no_overrides in *.
  eapply Forall_impl; [done|]. intros k. by apply dict_get_sublist.
Qed.

(** What a [pop] that returns leaves in the store: the dictionary without
    the key, in its place. *)
Lemma pop_returns (l : loc) (k : key) (v x : pyval) (h h' : heap) :
  pop l k v h = (Ok x, h') →
  ∃ d, h !! l = Some d ∧ h' = <[l := dict_remove k d]> h.
Proof.
  unfold pop, mbind, M_bind, read, write, mret, M_ret.
  destruct (h !! l) as [d|] eqn:Hl; [|done]. intros Hpop. exists d.
  split; [done|]. destruct (dict_get k d) eqn:Hk.
  - by injection Hpop as _ <-.
  - injection Hpop as _ <-.
    assert (dict_remove k d = d) as ->; [|by rewrite list_insert_id].
    clear Hl. induction d as [|[k' v'] d IH]; [done|]. cbn in *.
    destruct (decide (k' = k)); [done|]. by rewrite IH.
Qed.

(** *** Relations that every step of [build] keeps *)

Section kept_relations.
Context `{EncoderAPI}.
Variable R : relation heap.
Context `{!PreOrder R}.
Hypothesis R_pop : ∀ l k v, k ∈ override_keys → keeps R (pop l k v).

Lemma keeps_ret {A} (a : A) : keeps R (mret a).
Proof. intros h. reflexivity. Qed.

Lemma keeps_raise {A} (e : exn) : keeps R (raise e : M A).
Proof. intros h. reflexivity. Qed.

Lemma keeps_lift {A} (r : result A) : keeps R (lift r).
Proof. intros h. reflexivity. Qed.

Lemma keeps_read (l : loc) : keeps R (read l).
Proof. intros h. unfold read. destruct (h !! l); reflexivity. Qed.

Lemma keeps_bind {A B} (m : M A) (f : A → M B) :
  keeps R m → (∀ a, keeps R (f a)) → keeps R (m ≫= f).
Proof.
  intros Hm Hf h. unfold mbind, M_bind. specialize (Hm h).
  destruct (m h) as [[a|e] h1]; cbn in *; [|done].
  etrans; [done|apply Hf].
Qed.

Lemma keeps_truthy (v : pyval) : keeps R (truthy v).
Proof.
  destruct v; try apply keeps_ret. cbn.
  apply keeps_bind; [apply keeps_read|intros; apply keeps_ret].
Qed.

Lemma keeps_len (v : pyval) : keeps R (len v).
Proof.
  destruct v; try apply keeps_ret; try apply keeps_raise. cbn.
  apply keeps_bind; [apply keeps_read|intros; apply keeps_ret].
Qed.

Lemma keeps_iter (v : pyval) : keeps R (iter v).
Proof.
  destruct v; try apply keeps_ret; try apply keeps_raise. cbn.
  apply keeps_bind; [apply keeps_read|intros; apply keeps_ret].
Qed.

Lemma keeps_items (v : pyval) : keeps R (items v).
Proof. destruct v; try apply keeps_raise. apply keeps_read. Qed.

Lemma keeps_for_each {A S} (xs : list A) (body : A → S → M S) (s : S) :
  (∀ x s, keeps R (body x s)) → keeps R (for_each xs body s).
Proof.
  intros Hbody. revert s. induction xs as [|x xs IH]; intros s.
  - apply keeps_ret.
  - cbn. apply keeps_bind; [apply Hbody|apply IH].
Qed.

Lemma keeps_map_M {A B} (f : A → M B) (xs : list A) :
  (∀ x, keeps R (f x)) → keeps R (map_M f xs).
Proof.
  intros Hf. induction xs as [|x xs IH].
  - apply keeps_ret.
  - cbn. apply keeps_bind; [apply Hf|]. intros y.
    apply keeps_bind; [apply IH|]. intros ys. apply keeps_ret.
Qed.

Lemma keeps_conv_layer (self : SequenceInput) ws n v carried :
  keeps R (conv_layer self ws n v carried).
Proof.
  destruct carried as [value idx].
  destruct v as [| | | | | |l]; try apply keeps_raise. unfold conv_layer.
  repeat (apply keeps_bind;
          [first [ apply R_pop; unfold override_keys;
                   rewrite !elem_of_cons; auto 10
                 | apply keeps_lift | apply keeps_read ]
          | intros ? ]).
  case_bool_decide; [apply keeps_ret|]. destruct (_ && _); apply keeps_ret.
Qed.

Lemma keeps_build_conv build_source (self : SequenceInput) value :
  match conv_weight_source self with
  | Some (inr source) => keeps R (build_source source)
  | _ => True
  end →
  keeps R (_build_conv build_source self value).
Proof.
  intros Hsrc. unfold _build_conv.
  apply keeps_bind; [apply keeps_truthy|]. intros [|]; [|apply keeps_ret].
  apply keeps_bind.
  { destruct (conv_weight_source self) as [[t|source]|];
      try apply keeps_ret.
    apply keeps_bind; [done|intros; apply keeps_ret]. }
  intros ws. apply keeps_bind; [apply keeps_len|]. intros n.
  apply keeps_bind; [|intros; apply keeps_ret].
  apply keeps_for_each. intros _ carried.
  apply keeps_bind; [apply keeps_iter|]. intros layers.
  apply keeps_for_each. intros v c. apply keeps_conv_layer.
Qed.

Lemma keeps_build : ∀ self : SequenceInput, keeps R (build self).
Proof.
  fix IH 1. intros [a pl enc ns ex nd]. cbn [build].
  apply keeps_bind; [apply keeps_lift|]. intros value.
  apply keeps_bind; [|intros; apply keeps_ret].
  apply keeps_build_conv. cbn [cfg].
  destruct a as [? ? ? ? ? ? ? ? ? ? ? ? ? ? ? ? ? ws
                 ? ? ? ? ? ? ? ? ? ? ? ? ? ? ? ?].
  cbn [conv_weight_source]. destruct ws as [[t|source]|]; [done| |done].
  apply IH.
Qed.

End kept_relations.

(** *** Override keys taken out of the layer records *)

Lemma stripped_refl (d : dict) : stripped d d.
Proof. by split. Qed.

Lemma stripped_trans (d1 d2 d3 : dict) :
  stripped d1 d2 → stripped d2 d3 → stripped d1 d3.
Proof.
  intros [Hs1 Hg1] [Hs2 Hg2]. split; [by etrans|].
  intros k Hk. by rewrite Hg2, Hg1.
Qed.

Lemma stripped_remove (k : key) (d : dict) :
  k ∈ override_keys → stripped d (dict_remove k d).
Proof.
  intros Hk. split; [apply dict_remove_sublist|].
  intros k' Hk'. apply dict_get_remove_ne. by intros ->.
Qed.

#[local] Instance shrinks_preorder : PreOrder shrinks.
Proof.
  split.
  - intros h. apply Forall2_same_length_lookup_2; [done|].
    intros i d d' Hd Hd'. simplify_eq. apply stripped_refl.
  - intros h1 h2 h3 H12 H23. unfold shrinks in *.
    revert h3 H23. induction H12 as [|d1 d2 h1 h2 Hd _ IH]; intros h3 H23.
    + by apply Forall2_nil_inv_l in H23 as ->.
    + apply Forall2_cons_inv_l in H23 as (d3 & h3' & Hd' & H23 & ->).
      constructor; [by eapply stripped_trans|by apply IH].
Qed.

Lemma shrinks_insert (h : heap) (l : loc) (d d' : dict) :
  h !! l = Some d → stripped d d' → shrinks h (<[l := d']> h).
Proof.
  intros Hl Hd. rewrite <- (list_insert_id h l d) at 1 by done.
  apply Forall2_insert; [reflexivity|done].
Qed.

Lemma shrinks_pop (l : loc) (k : key) (v : pyval) :
  k ∈ override_keys → keeps shrinks (pop l k v).
Proof.
  intros Hk h. destruct (pop l k v h) as [[x|e] h'] eqn:Hpop.
  - apply pop_returns in Hpop as (d & Hl & ->). cbn.
    by apply (shrinks_insert h l d), stripped_remove.
  - unfold pop, mbind, M_bind, read in Hpop.
    destruct (h !! l) as [d|]; [|injection Hpop as _ <-; reflexivity].
    by destruct (dict_get k d).
Qed.

#[local] Instance same_without_overrides_preorder :
  PreOrder same_without_overrides.
Proof.
  split.
  - by intros h _.
  - intros h1 h2 h3 H12 H23 Hh. rewrite <- (H12 Hh). apply H23.
    by rewrite (H12 Hh).
Qed.

Lemma same_without_overrides_pop (l : loc) (k : key) (v : pyval) :
  k ∈ override_keys → keeps same_without_overrides (pop l k v).
Proof.
  intros Hk h Hh. apply preserves_pop. intros d Hl.
  pose proof (Forall_lookup_1 _ _ _ _ Hh Hl) as Hd.
  unfold no_overrides in Hd. rewrite Forall_forall in Hd. by apply Hd.
Qed.

Lemma shrinks_lookup (h h' : heap) (l : loc) (d : dict) :
  shrinks h h' → h !! l = Some d → ∃ d', h' !! l = Some d' ∧ stripped d d'.
Proof. intros Hh Hl. by apply (Forall2_lookup_l _ _ _ _ _ Hh Hl). Qed.

Section conv_stage.
Context `{EncoderAPI}.

(** X18.  In a store where no dictionary carries an override key, [build]
    changes nothing, whether it returns or raises and whatever the source
    of the convolution weights is, a chain of descriptors included; so
    building again gives the same result. *)
Theorem build_without_overrides (self : SequenceInput) (h : heap) :
  Forall no_overrides h →
  (build self h).2 = h ∧ build self (build self h).2 = build self h.
Proof.
  intros Hh.
  assert ((build self h).2 = h) as Heq.
  { by apply (keeps_build same_without_overrides
                same_without_overrides_pop self h). }
  by rewrite Heq.
Qed.

(** X19.  Whether it returns or raises, [build] leaves every dictionary
    of the store in its place and only ever takes override keys out of it:
    what is left of a dictionary is a part of it in the same order, and
    every filter width is still there with its number of filters. *)
Theorem build_only_strips_overrides (self : SequenceInput) (h : heap) :
  shrinks h (build self h).2.
Proof. apply (keeps_build shrinks shrinks_pop). Qed.

End conv_stage.

Lemma build_without_overrides_witness :
  ∃ self,
    __init__ two_layer_args = Ok self
    ∧ (build self two_layer_heap).2 = two_layer_heap
    ∧ build self (build self two_layer_heap).2 = build self two_layer_heap.
Proof.
  eexists. split; [reflexivity|].
  apply (build_without_overrides _ two_layer_heap).
  by repeat constructor.
Defined.

Lemma bind_returns {A B} (m : M A) (f : A → M B) (h h' : heap) (b : B) :
  (m ≫= f) h = (Ok b, h') →
  ∃ a h1, m h = (Ok a, h1) ∧ f a h1 = (Ok b, h').
Proof.
  unfold mbind, M_bind. destruct (m h) as [[a|e] h1]; [|done].
  intros Hf. by exists a, h1.
Qed.

Lemma dict_remove_distinct (k : key) (d : dict) :
  NoDup d.*1 → NoDup (dict_remove k d).*1.
Proof.
  intros Hnd. eapply sublist_NoDup; [done|].
  apply fmap_sublist, dict_remove_sublist.
Qed.

Lemma shrinks_distinct (h h' : heap) :
  shrinks h h' →
  Forall (λ d : dict, NoDup d.*1) h → Forall (λ d : dict, NoDup d.*1) h'.
Proof.
  induction 1 as [|d d' h h' [Hsub _] _ IH]; [done|].
  intros [Hd Hh]%Forall_cons. constructor; [|by apply IH].
  eapply sublist_NoDup; [done|]. by apply fmap_sublist.
Qed.

Lemma shrinks_no_overrides (h h' : heap) (v : pyval) :
  shrinks h h' →
  (∃ l d, v = VDict l ∧ h !! l = Some d ∧ no_overrides d) →
  ∃ l d, v = VDict l ∧ h' !! l = Some d ∧ no_overrides d.
Proof.
  intros Hh (l & d & -> & Hl & Hd).
  destruct (shrinks_lookup h h' l d Hh Hl) as (d' & Hl' & Hsub & _).
  exists l, d'. split; [done|]. split; [done|].
  by eapply no_overrides_sublist.
Qed.

(** A [pop] of [k] that returns leaves a dictionary without [k], and
    without the keys that were taken out before. *)
Lemma pop_clears (l : loc) (k : key) (v x : pyval) (h h' : heap)
    (K : list key) :
  pop l k v h = (Ok x, h') →
  (∀ d, h !! l = Some d →
        NoDup d.*1 ∧ Forall (λ k', dict_get k' d = None) K) →
  ∀ d, h' !! l = Some d →
       NoDup d.*1 ∧ Forall (λ k', dict_get k' d = None) (k :: K).
Proof.
  intros (d & Hl & ->)%pop_returns Hpre d' Hl'.
  rewrite list_lookup_insert_eq in Hl' by (by eapply lookup_lt_Some).
  injection Hl' as <-. destruct (Hpre d Hl) as [Hnd HK].
  split; [by apply dict_remove_distinct|]. constructor.
  - by apply dict_get_remove.
  - eapply Forall_impl; [done|]. intros k'.
    apply dict_get_sublist, dict_remove_sublist.
Qed.

Lemma pop_lookup (l : loc) (k : key) (v x : pyval) (h h' : heap) :
  pop l k v h = (Ok x, h') → is_Some (h' !! l).
Proof.
  intros (d & Hl & ->)%pop_returns.
  rewrite list_lookup_insert_eq by (by eapply lookup_lt_Some). by eexists.
Qed.

Lemma keeps_run {A} (R : relation heap) (m : M A) (h h' : heap)
    (r : result A) :
  keeps R m → m h = (r, h') → R h h'.
Proof. intros Hm Hrun. specialize (Hm h). by rewrite Hrun in Hm. Qed.

Section strips.
Context `{EncoderAPI}.

Lemma conv_layer_strips (self : SequenceInput) ws n v carried c
    (h h' : heap) :
  conv_layer self ws n v carried h = (Ok c, h') →
  Forall (λ d : dict, NoDup d.*1) h →
  ∃ l d, v = VDict l ∧ h' !! l = Some d ∧ no_overrides d.
Proof.
  intros Hrun Hh. destruct carried as [value idx].
  destruct v as [| | | | | |l]; try done. unfold conv_layer in Hrun.
  apply bind_returns in Hrun as (x1 & h1 & Hp1 & Hrun).
  apply bind_returns in Hrun as (x2 & h2 & Hp2 & Hrun).
  apply bind_returns in Hrun as (x3 & h3 & Hp3 & Hrun).
  apply bind_returns in Hrun as (x4 & h4 & Hp4 & Hrun).
  apply bind_returns in Hrun as (x5 & h5 & Hp5 & Hrun).
  assert (h5 = h') as <-.
  { eapply (keeps_run eq); [|exact Hrun].
    apply (keeps_bind eq); [apply (keeps_lift eq)|]. intros b.
    apply (keeps_bind eq); [apply (keeps_read eq)|]. intros d.
    case_bool_decide; [apply (keeps_ret eq)|].
    destruct (_ && _); apply (keeps_ret eq). }
  destruct (pop_lookup _ _ _ _ _ _ Hp5) as [d Hl]. exists l, d.
  split; [done|]. split; [done|].
  assert (∀ d, h !! l = Some d →
               NoDup d.*1 ∧ Forall (λ k', dict_get k' d = None) []) as H0.
  { intros d0 Hd0. split; [|done].
    exact (Forall_lookup_1 _ _ _ _ Hh Hd0). }
  pose proof (pop_clears _ _ _ _ _ _ _ Hp1 H0) as H1.
  pose proof (pop_clears _ _ _ _ _ _ _ Hp2 H1) as H2.
  pose proof (pop_clears _ _ _ _ _ _ _ Hp3 H2) as H3.
  pose proof (pop_clears _ _ _ _ _ _ _ Hp4 H3) as H4.
  pose proof (pop_clears _ _ _ _ _ _ _ Hp5 H4) as H5.
  destruct (H5 d Hl) as [_ Hnone]. unfold no_overrides, override_keys.
  rewrite !Forall_cons in Hnone. rewrite !Forall_cons. tauto.
Qed.

Lemma inner_loop_strips (self : SequenceInput) ws n (vs : list pyval)
    carried c (h h' : heap) :
  for_each vs (conv_layer self ws n) carried h = (Ok c, h') →
  Forall (λ d : dict, NoDup d.*1) h →
  Forall (λ v, ∃ l d, v = VDict l ∧ h' !! l = Some d ∧ no_overrides d) vs.
Proof.
  revert carried h. induction vs as [|v vs IH]; intros carried h Hrun Hh;
    [done|].
  cbn [for_each] in Hrun.
  apply bind_returns in Hrun as (c1 & h1 & Hv & Hrun).
  assert (shrinks h h1) as Hh1.
  { eapply keeps_run; [|exact Hv].
    apply (keeps_conv_layer shrinks shrinks_pop). }
  assert (shrinks h1 h') as Hh'.
  { eapply keeps_run; [|exact Hrun]. apply (keeps_for_each shrinks).
    intros v' c'. apply (keeps_conv_layer shrinks shrinks_pop). }
  constructor.
  - apply (shrinks_no_overrides h1 h' v Hh'). by eapply conv_layer_strips.
  - apply (IH c1 h1 Hrun). by eapply shrinks_distinct.
Qed.

(** X20.  After a [build] that returns, for a list of layer records,
    a positive number of repetitions and dictionaries with one entry per
    key, every element of the list is a dictionary that carries no override
    key any more. *)
Theorem build_strips_layer_records (self : SequenceInput)
    (vs : list pyval) (h h' : heap) (built : tensor * tensor) :
  conv_filter_sizes self = VList vs →
  0 < repeat_conv_layers self →
  Forall (λ d : dict, NoDup d.*1) h →
  build self h = (Ok built, h') →
  Forall (λ v, ∃ l d, v = VDict l ∧ h' !! l = Some d ∧ no_overrides d) vs.
Proof.
  intros Hcfs Hrep Hh Hrun. destruct self as [a pl enc ns ex nd].
  cbn [build] in Hrun. cbn [cfg] in Hcfs, Hrep.
  apply bind_returns in Hrun as (value & h0 & Hemb & Hrun).
  assert (h0 = h) as -> by (by injection Hemb).
  apply bind_returns in Hrun as (value' & h1 & Hconv & Hret).
  assert (h1 = h') as -> by (by injection Hret). clear Hret Hemb.
  unfold _build_conv in Hconv. cbn [cfg] in Hconv. rewrite Hcfs in Hconv.
  cbn [truthy isinstance_dict] in Hconv.
  apply bind_returns in Hconv as (nonempty & h0 & Htruthy & Hconv).
  injection Htruthy as <- <-.
  destruct vs as [|v vs]; [done|].
  rewrite bool_decide_eq_false_2 in Hconv by done. cbn [negb] in Hconv.
  apply bind_returns in Hconv as (ws & h1 & Hws & Hconv).
  assert (shrinks h h1) as Hh1.
  { eapply keeps_run; [|exact Hws].
    destruct (conv_weight_source a) as [[t|source]|];
      try apply (keeps_ret shrinks).
    apply (keeps_bind shrinks); [apply (keeps_build shrinks shrinks_pop)|].
    intros. apply (keeps_ret shrinks). }
  apply bind_returns in Hconv as (len_ & h2 & Hlen & Hconv).
  injection Hlen as <- <-.
  apply bind_returns in Hconv as (c & h2 & Hloop & Hret).
  assert (h2 = h') as -> by (by injection Hret). clear Hret.
  unfold range in Hloop.
  destruct (Z.to_nat (repeat_conv_layers a)) as [|r] eqn:Hr; [lia|].
  cbn [seq fmap list_fmap for_each] in Hloop.
  apply bind_returns in Hloop as (c1 & h2 & Hpass & Hloop).
  apply bind_returns in Hpass as (layers & h3 & Hiter & Hpass).
  injection Hiter as <- <-.
  set (n := repeat_conv_layers a * _) in *.
  assert (shrinks h2 h') as Hh2.
  { eapply keeps_run; [|exact Hloop]. apply (keeps_for_each shrinks).
    intros _ carried.
    apply (keeps_bind shrinks); [apply (keeps_iter shrinks)|].
    intros layers. apply (keeps_for_each shrinks). intros v' c'.
    apply (keeps_conv_layer shrinks shrinks_pop). }
  eapply Forall_impl.
  - eapply inner_loop_strips; [done|]. by eapply shrinks_distinct.
  - intros v'. by apply shrinks_no_overrides.
Qed.

End strips.

Lemma build_strips_layer_records_witness :
  ∃ self built,
    __init__ override_args = Ok self
    ∧ build self override_heap = (Ok built, [[(KInt 3, VInt 16)]])
    ∧ Forall (λ v, ∃ l d, v = VDict l
                          ∧ [[(KInt 3, VInt 16)]] !! l = Some d
                          ∧ no_overrides d)
        [VDict 0%nat].
Proof.
  do 2 eexists. split; [reflexivity|].
  match goal with
  | |- build ?self _ = _ ∧ _ =>
      split;
      [reflexivity
      |eapply (build_strips_layer_records self [VDict 0%nat] override_heap
                 [[(KInt 3, VInt 16)]])]
  end.
  - reflexivity.
  - reflexivity.
  - apply (bool_decide_unpack _). vm_compute. exact I.
  - reflexivity.
Defined.

Section conv_edges.
Context `{EncoderAPI}.

Lemma conv_layer_returns (self : SequenceInput) ws n l d carried h :
  h !! l = Some d → no_overrides d →
  ∃ c, conv_layer self ws n (VDict l) carried h = (Ok c, h).
Proof.
  intros Hl Hd. destruct carried as [value idx].
  unfold no_overrides, override_keys in Hd.
  repeat (apply Forall_cons in Hd as [? Hd]).
  unfold conv_layer.
  do 5 (unfold mbind at 1, M_bind at 1; erewrite pop_absent by done).
  unfold mbind at 1, M_bind at 1, lift. cbn [gt1 mbind result_bind].
  destruct (1 <? pool_size self); cbn.
  - unfold mbind at 1, M_bind at 1, read. rewrite Hl.
    case_bool_decide; [by eexists|]. destruct (idx + 1 <? n); by eexists.
  - unfold mbind at 1, M_bind at 1, read. rewrite Hl.
    case_bool_decide; [by eexists|].
    destruct (_ && _); by eexists.
Qed.

Lemma inner_loop_rejects (self : SequenceInput) ws n (locs : list loc)
    (v : pyval) (rest : list pyval) carried h :
  Forall (λ l, ∃ d, h !! l = Some d ∧ no_overrides d) locs →
  isinstance_dict v = false →
  for_each ((VDict <$> locs) ++ v :: rest) (conv_layer self ws n) carried h
  = (Raise (ValueError
              ("Each element of conv_filter_sizes must be a "
               ++ "{width: num_filters} dictionary, "
               ++ "got %s : %s instead.")
              [v; VStr (type_repr v)]), h).
Proof.
  intros Hlocs Hv. revert carried.
  induction Hlocs as [|l locs (d & Hl & Hd) _ IH]; intros carried.
  - cbn [fmap list_fmap app for_each]. bind_step.
    destruct carried as [value idx]. by destruct v.
  - cbn [fmap list_fmap app for_each]. bind_step.
    destruct (conv_layer_returns self ws n l d carried h Hl Hd) as [c ->].
    apply IH.
Qed.

(** X15.  When the source of the convolution weights is not a descriptor,
    the number of repetitions is positive and the elements of
    [conv_filter_sizes] before the first one that is not a dictionary are
    dictionaries without an override key, the convolution stage raises the
    [ValueError] that names that element and its type, and leaves the layer
    records as they are. *)
Theorem non_dictionary_layer_rejected (self : SequenceInput)
    (build_source : SequenceInput → M (tensor * tensor)) (value : tensor)
    (h : heap) (locs : list loc) (v : pyval) (rest : list pyval) :
  conv_filter_sizes self = VList ((VDict <$> locs) ++ v :: rest) →
  isinstance_dict v = false →
  Forall (λ l, ∃ d, h !! l = Some d ∧ no_overrides d) locs →
  (∀ source, conv_weight_source self ≠ Some (inr source)) →
  0 < repeat_conv_layers self →
  _build_conv build_source self value h
  = (Raise (ValueError
              ("Each element of conv_filter_sizes must be a "
               ++ "{width: num_filters} dictionary, "
               ++ "got %s : %s instead.")
              [v; VStr (type_repr v)]), h).
Proof.
  intros Hcfs Hv Hlocs Hws Hrep. unfold _build_conv. rewrite Hcfs.
  cbn [truthy isinstance_dict].
  unfold mbind at 1, M_bind at 1, mret at 1, M_ret at 1.
  rewrite bool_decide_eq_false_2 by (by destruct locs). cbn [negb].
  bind_step.
  assert (match conv_weight_source self with
          | Some (inl t) => mret (Some t)
          | Some (inr source) =>
              built ← build_source source; mret (Some built.2)
          | None => mret None
          end h = (Ok (given_weight_source self), h)) as ->.
  { unfold given_weight_source.
    destruct (conv_weight_source self) as [[t|source]|] eqn:Hsrc; try done.
    by destruct (Hws source). }
  cbn [len]. unfold mbind at 1, M_bind at 1, mret at 1, M_ret at 1.
  bind_step. unfold range.
  destruct (Z.to_nat (repeat_conv_layers self)) as [|r] eqn:Hr; [lia|].
  cbn [seq fmap list_fmap for_each]. bind_step. bind_step. cbn [iter].
  unfold mret at 1, M_ret at 1.
  by rewrite inner_loop_rejects.
Qed.

(** X14.  With an empty list of layer records, or with a number of
    repetitions that is zero or negative, the convolution stage returns the
    value it was given and leaves the store as it is; in the second case
    the elements of the list are not even looked at. *)
Theorem conv_stage_skipped (self : SequenceInput)
    (build_source : SequenceInput → M (tensor * tensor)) (value : tensor)
    (h : heap) (vs : list pyval) :
  conv_filter_sizes self = VList vs →
  vs = []
  ∨ (repeat_conv_layers self ≤ 0
     ∧ ∀ source, conv_weight_source self ≠ Some (inr source)) →
  _build_conv build_source self value h = (Ok value, h).
Proof.
  intros Hcfs Hcase. unfold _build_conv. rewrite Hcfs.
  cbn [truthy isinstance_dict].
  unfold mbind at 1, M_bind at 1, mret at 1, M_ret at 1.
  destruct Hcase as [->|[Hrep Hws]]; [done|].
  case_bool_decide; [done|]. cbn [negb]. bind_step.
  assert (match conv_weight_source self with
          | Some (inl t) => mret (Some t)
          | Some (inr source) =>
              built ← build_source source; mret (Some built.2)
          | None => mret None
          end h = (Ok (given_weight_source self), h)) as ->.
  { unfold given_weight_source.
    destruct (conv_weight_source self) as [[t|source]|] eqn:Hsrc; try done.
    by destruct (Hws source). }
  cbn [len]. unfold mbind at 1, M_bind at 1, mret at 1, M_ret at 1.
  unfold range. by rewrite Z2Nat.nonpos.
Qed.

(** X16.  A single non-empty dictionary as [conv_filter_sizes] builds what
    the list with that one dictionary builds, with the same effect on the
    store. *)
Theorem single_dictionary_is_one_layer (self : SequenceInput)
    (build_source : SequenceInput → M (tensor * tensor)) (value : tensor)
    (h : heap) (l : loc) (d : dict) :
  h !! l = Some d → d ≠ [] →
  _build_conv build_source (with_layers (VDict l) self) value h
  = _build_conv build_source (with_layers (VList [VDict l]) self) value h.
Proof.
  intros Hl Hd. unfold _build_conv.
  cbn [with_layers cfg conv_filter_sizes with_conv_filter_sizes truthy
       isinstance_dict conv_weight_source repeat_conv_layers].
  unfold mbind at 1, M_bind at 1. unfold mbind at 1, M_bind at 1, read.
  rewrite Hl. unfold mret at 1, M_ret at 1.
  rewrite bool_decide_eq_false_2 by done. cbn [negb].
  symmetry. unfold mbind at 1, M_bind at 1, mret at 1, M_ret at 1.
  by rewrite bool_decide_eq_false_2 by done.
Qed.

End conv_edges.

Lemma conv_stage_skipped_witness :
  ∃ self,
    __init__ (with_repeat_conv_layers 0 two_layer_args) = Ok self
    ∧ _build_conv build self (_build_input self) two_layer_heap
      = (Ok (_build_input self), two_layer_heap).
Proof.
  eexists. split; [reflexivity|].
  apply (conv_stage_skipped _ build _ two_layer_heap
           [VDict 0%nat; VDict 1%nat]).
  - reflexivity.
  - right. split; [discriminate|]. intros source. discriminate.
Defined.

Lemma non_dictionary_layer_rejected_witness :
  ∃ self,
    __init__ malformed_args = Ok self
    ∧ _build_conv build self (_build_input self) malformed_heap
      = (Raise (ValueError
                  ("Each element of conv_filter_sizes must be a "
                   ++ "{width: num_filters} dictionary, "
                   ++ "got %s : %s instead.")
                  [VInt 3; VStr "<class 'int'>"]), malformed_heap).
Proof.
  eexists. split; [reflexivity|].
  apply (non_dictionary_layer_rejected _ build _ malformed_heap [0%nat]
           (VInt 3) []).
  - reflexivity.
  - reflexivity.
  - constructor; [|constructor]. eexists. split; [reflexivity|].
    by repeat constructor.
  - intros source. discriminate.
  - reflexivity.
Defined.

Lemma single_dictionary_is_one_layer_witness :
  ∃ self,
    __init__ (defaults 9) = Ok self
    ∧ _build_conv build (with_layers (VDict 0%nat) self) (_build_input self)
        two_layer_heap
      = _build_conv build (with_layers (VList [VDict 0%nat]) self)
          (_build_input self) two_layer_heap.
Proof.
  eexists. split; [reflexivity|].
  apply (single_dictionary_is_one_layer _ build _ two_layer_heap 0%nat
           [(KInt 3, VInt 16)]).
  - reflexivity.
  - discriminate.
Defined.

End store_properties.

(** ** More on reconstructing with [from_dict] *)

Section reconstruction_properties.
Import Py nn_helpers sequence_input examples.

Lemma dict_set_keys (k : key) (v : pyval) (d : dict) :
  (dict_set k v d).*1 = if decide (k ∈ d.*1) then d.*1 else d.*1 ++ [k].
Proof.
  induction d as [|[k' v'] d IH]; cbn.
  - rewrite decide_False; [done|]. apply not_elem_of_nil.
  - destruct (decide (k' = k)) as [->|Hne]; cbn.
    + rewrite decide_True; [done|]. by left.
    + rewrite IH. destruct (decide (k ∈ d.*1)) as [Hin|Hnin].
      * rewrite decide_True; [done|]. by right.
      * rewrite decide_False; [done|].
        rewrite not_elem_of_cons. by split.
Qed.

Lemma dict_set_integer_record (k v : Z) (d : dict) :
  integer_record d → integer_record (dict_set (KInt k) (VInt v) d).
Proof.
  intros [Hint Hnd]. split.
  - clear Hnd. induction Hint as [|[k' v'] d Hkv Hd IH]; cbn.
    + constructor; [by eexists _, _|constructor].
    + destruct (decide (k' = KInt k)) as [->|Hne].
      * constructor; [by eexists _, _|done].
      * by constructor.
  - rewrite dict_set_keys. destruct (decide (KInt k ∈ d.*1)); [done|].
    apply NoDup_app. split; [done|]. split.
    + intros k' Hk' Hin. apply list_elem_of_singleton in Hin as ->. done.
    + apply NoDup_singleton.
Qed.

Lemma integer_keys_integer_record (kvs : list (key * pyval)) (acc d : dict) :
  integer_keys kvs acc = Ok d → integer_record acc → integer_record d.
Proof.
  revert acc. induction kvs as [|[k v] kvs IH]; intros acc; cbn.
  - by intros [= ->].
  - destruct (int_of_key k) as [k'|]; [|done]. cbn.
    destruct (int v) as [v'|]; [|done]. cbn.
    intros Hrest Hacc. eapply IH; [done|]. by apply dict_set_integer_record.
Qed.

Lemma integer_keys_accepted (kvs : list (key * pyval)) (acc d : dict) :
  integer_keys kvs acc = Ok d →
  Forall (λ kv : key * pyval, ∃ z, int_of_key kv.1 = Ok z) kvs.
Proof.
  revert acc. induction kvs as [|[k v] kvs IH]; intros acc; cbn; [done|].
  destruct (int_of_key k) as [k'|] eqn:Hk; [|done]. cbn.
  destruct (int v) as [v'|]; [|done]. cbn.
  intros Hrest. constructor; [by exists k'|by eapply IH].
Qed.

Lemma keeps_alloc (d : dict) : keeps prefix (alloc d).
Proof. intros h. by apply prefix_app_r. Qed.

Section reconstruct.
Context `{EncoderAPI}.

Lemma keeps_from_dict_layer (v : pyval) : keeps prefix (from_dict_layer v).
Proof.
  unfold from_dict_layer.
  apply (keeps_bind prefix); [apply (keeps_items prefix)|]. intros kvs.
  apply (keeps_bind prefix); [apply (keeps_lift prefix)|]. intros d.
  apply (keeps_bind prefix); [apply keeps_alloc|]. intros l.
  apply (keeps_ret prefix).
Qed.

(** X21.  Whether it returns or raises, [from_dict] changes none of the
    layer records it reads and no other dictionary of the store: the store
    afterwards is the store before with new dictionaries after it. *)
Theorem from_dict_only_allocates (config_dict : InitArgs SequenceInput)
    (h : heap) :
  ∃ new, (from_dict config_dict h).2 = h ++ new.
Proof.
  assert (keeps prefix (from_dict config_dict)) as Hk.
  { unfold from_dict.
    apply (keeps_bind prefix); [apply (keeps_iter prefix)|]. intros layers.
    apply (keeps_bind prefix); [|intros; apply (keeps_lift prefix)].
    apply (keeps_map_M prefix), keeps_from_dict_layer. }
  destruct (Hk h) as [new Hnew]. by exists new.
Qed.

Lemma from_dict_layer_returns (v v' : pyval) (h h' : heap) :
  from_dict_layer v h = (Ok v', h') →
  ∃ l d d', v = VDict l ∧ h !! l = Some d ∧ integer_keys d [] = Ok d'
            ∧ v' = VDict (Datatypes.length h) ∧ h' = h ++ [d'].
Proof.
  unfold from_dict_layer. intros Hrun.
  apply bind_returns in Hrun as (kvs & h1 & Hitems & Hrun).
  destruct v as [| | | | | |l]; try done. cbn in Hitems. unfold read in Hitems.
  destruct (h !! l) as [d|] eqn:Hl; [|done]. injection Hitems as <- <-.
  apply bind_returns in Hrun as (d' & h1 & Hkeys & Hrun).
  unfold lift in Hkeys. injection Hkeys as Hkeys <-.
  apply bind_returns in Hrun as (l' & h1 & Halloc & Hret).
  unfold alloc in Halloc. injection Halloc as <- <-.
  unfold mret, M_ret in Hret. injection Hret as <- <-.
  by exists l, d, d'.
Qed.

Lemma map_M_from_dict_layer (vs vs' : list pyval) (h h' : heap) :
  map_M from_dict_layer vs h = (Ok vs', h') →
  ∃ ds, h' = h ++ ds
        ∧ vs' = VDict <$> seq (Datatypes.length h) (Datatypes.length ds)
        ∧ Forall integer_record ds
        ∧ Forall2 (λ v d', ∃ l d, v = VDict l ∧ h' !! l = Some d
                                  ∧ integer_keys d [] = Ok d') vs ds.
Proof.
  revert vs' h h'. induction vs as [|v vs IH]; intros vs' h h' Hrun.
  - injection Hrun as <- <-. exists []. by rewrite app_nil_r.
  - cbn [map_M] in Hrun.
    apply bind_returns in Hrun as (v1 & h1 & Hv & Hrun).
    apply bind_returns in Hrun as (vs1 & h2 & Hvs & Hret).
    unfold mret, M_ret in Hret. injection Hret as <- <-.
    apply from_dict_layer_returns in Hv
      as (l & d & d' & -> & Hl & Hkeys & -> & ->).
    apply IH in Hvs as (ds & -> & -> & Hds & Hvs).
    exists (d' :: ds). rewrite <- app_assoc in *. cbn [app] in *.
    split; [done|]. split.
    { cbn [Datatypes.length seq fmap list_fmap]. do 3 f_equal.
      rewrite length_app. cbn. apply Nat.add_1_r. }
    split.
    { constructor; [|done]. eapply integer_keys_integer_record; [done|].
      split; [done|constructor]. }
    constructor; [|done]. exists l, d. split; [done|]. split; [|done].
    by apply lookup_app_l_Some.
Qed.

(** X22.  The layer records of a descriptor that [from_dict] returns are
    the new dictionaries it made, and each of them maps integers to
    integers, one entry per key. *)
Theorem from_dict_integer_records (config_dict : InitArgs SequenceInput)
    (self : SequenceInput) (h h' : heap) :
  from_dict config_dict h = (Ok self, h') →
  ∃ ds, h' = h ++ ds
        ∧ layer_records h' (conv_filter_sizes self) = Some ds
        ∧ Forall integer_record ds.
Proof.
  unfold from_dict. intros Hrun.
  apply bind_returns in Hrun as (layers & h1 & Hiter & Hrun).
  assert (h = h1) as <-.
  { eapply (keeps_run eq); [|exact Hiter]. apply (keeps_iter eq). }
  apply bind_returns in Hrun as (vs' & h1 & Hmap & Hinit).
  unfold lift in Hinit. injection Hinit as Hinit <-.
  apply map_M_from_dict_layer in Hmap as (ds & -> & -> & Hds & _).
  exists ds. split; [done|]. split; [|done].
  destruct (init_ok _ _ Hinit) as (enc & _ & _ & _ & ->).
  cbn [cfg conv_filter_sizes with_mask_zero with_conv_filter_sizes].
  apply layer_records_new.
Qed.

(** X23.  [from_dict] does not take the single non-empty dictionary that
    the constructor takes as [conv_filter_sizes]: the loop visits its keys,
    which have no [items], and raises [AttributeError]; no layer record is
    changed and none is made. *)
Theorem from_dict_rejects_single_dictionary
    (config_dict : InitArgs SequenceInput) (h : heap) (l : loc) (d : dict) :
  conv_filter_sizes config_dict = VDict l →
  h !! l = Some d → d ≠ [] →
  from_dict config_dict h = (Raise (AttributeError "items"), h).
Proof.
  intros Hcfs Hl Hd. unfold from_dict. rewrite Hcfs. cbn [iter].
  bind_step. bind_step. unfold read. rewrite Hl.
  unfold mret at 1, M_ret at 1. bind_step.
  destruct d as [|[k v] d]; [done|].
  cbn [dict_keys fmap list_fmap fst map_M]. bind_step.
  by destruct k.
Qed.

(** X24.  [from_dict] returns no descriptor when a listed layer record has
    a key that [int] does not accept, such as the override key "pool_size":
    it raises. *)
Theorem from_dict_rejects_other_keys (config_dict : InitArgs SequenceInput)
    (h : heap) (vs : list pyval) (l : loc) (d : dict) (k : key) (e : exn) :
  conv_filter_sizes config_dict = VList vs →
  VDict l ∈ vs → h !! l = Some d →
  k ∈ dict_keys d → int_of_key k = Raise e →
  ∃ e' h', from_dict config_dict h = (Raise e', h').
Proof.
  intros Hcfs Hin Hl Hk He.
  destruct (from_dict config_dict h) as [[self|e'] h'] eqn:Hrun;
    [|by exists e', h'].
  exfalso. unfold from_dict in Hrun. rewrite Hcfs in Hrun. cbn [iter] in Hrun.
  apply bind_returns in Hrun as (layers & h1 & Hiter & Hrun).
  injection Hiter as <- <-.
  apply bind_returns in Hrun as (vs' & h1 & Hmap & _).
  apply map_M_from_dict_layer in Hmap as (ds & -> & _ & _ & Hvs).
  apply list_elem_of_lookup in Hin as [i Hi].
  destruct (Forall2_lookup_l _ _ _ _ _ Hvs Hi)
    as (d' & _ & l' & d0 & [= <-] & Hl' & Hkeys).
  rewrite (lookup_app_l_Some _ _ _ _ Hl) in Hl'. injection Hl' as <-.
  apply integer_keys_accepted in Hkeys. rewrite Forall_forall in Hkeys.
  apply list_elem_of_fmap in Hk as ([k' v] & -> & Hkv).
  destruct (Hkeys _ Hkv) as [z Hz]. cbn [fst] in *. congruence.
Qed.

End reconstruct.

Lemma from_dict_integer_records_witness :
  ∃ self h' ds,
    from_dict two_layer_args string_key_heap = (Ok self, h')
    ∧ h' = string_key_heap ++ ds
    ∧ layer_records h' (conv_filter_sizes self) = Some ds
    ∧ Forall integer_record ds.
Proof.
  destruct (from_dict two_layer_args string_key_heap) as [[self|e] h'] eqn:Hrun;
    [|discriminate Hrun].
  destruct (from_dict_integer_records two_layer_args self string_key_heap h'
              Hrun) as (ds & Hh' & Hrec & Hint).
  by exists self, h', ds.
Defined.

Lemma from_dict_rejects_single_dictionary_witness :
  from_dict (with_conv_filter_sizes (VDict 0%nat) (defaults 9)) two_layer_heap
  = (Raise (AttributeError "items"), two_layer_heap).
Proof.
  apply (from_dict_rejects_single_dictionary
           (with_conv_filter_sizes (VDict 0%nat) (defaults 9)) two_layer_heap
           0%nat [(KInt 3, VInt 16)]).
  - reflexivity.
  - reflexivity.
  - discriminate.
Defined.

Lemma from_dict_rejects_other_keys_witness :
  ∃ e h', from_dict override_args override_heap = (Raise e, h').
Proof.
  apply (from_dict_rejects_other_keys override_args override_heap
           [VDict 0%nat] 0%nat
           [(KInt 3, VInt 16); (KStr "pool_size", VInt 2)]
           (KStr "pool_size") (invalid_literal "pool_size")).
  - reflexivity.
  - apply list_elem_of_here.
  - reflexivity.
  - apply list_elem_of_further, list_elem_of_here.
  - reflexivity.
Defined.

End reconstruction_properties.
